(** * MWT expander: training and evaluation orchestration

    A shallow embedding of [models/mwt_expander.py]: the functions [main],
    [train] and [evaluate], with the collaborators they call (data loader,
    trainers, scorer, preset store) taken as an explicit environment and every
    call on a collaborator recorded in an event log. *)

From Stdlib Require Import ZArith List String Bool Lia.
From Stdlib Require Import Floats.
Import ListNotations.

Local Open Scope Z_scope.

(** ** Python floats

    A Python [float] is an IEEE 754 binary64 value, that is Rocq's primitive
    [float].  The comparisons the orchestrator performs are [<], [<=] and
    [>]; the facts below are the part of their order theory the decisions
    rely on, derived from the specification of [PrimFloat] comparisons. *)
Module PyFloat.

Definition not_nan (x : float) : bool := negb (PrimFloat.is_nan x).

(** Python's [a > b]. *)
Definition gtb (a b : float) : bool := PrimFloat.ltb b a.

(** The order on specification floats, as propositions. *)
Definition sf_le (x y : spec_float) : Prop := SFleb x y = true.
Definition sf_lt (x y : spec_float) : Prop := SFltb x y = true.
Definition sf_num (x : spec_float) : Prop := x <> S754_nan.

End PyFloat.

(** ** Python values the orchestrator handles *)

(** The exceptions [main], [train] and [evaluate] can raise themselves.
    [exit()] raises [SystemExit] with no code, a normal termination. *)
Inductive PyExn :=
| SystemExit
| TypeError
| NameError
| IndexError
| ValueError
| ZeroDivisionError
| OverflowError.

Inductive Mode := ModeTrain | ModePredict.

(** The argparse namespace of [parse_args], turned into a dict by [vars]; one
    field per option, an option without a default (or with default [None])
    as [option].  [vocab_size] is the key [train] adds. *)
Record Args := mkArgs {
  data_dir : string;
  train_file : option string;
  eval_file : option string;
  output_file : option string;
  gold_file : option string;
  mode : Mode;
  lang : option string;
  best_param : bool;
  dict_only : bool;
  hidden_dim : Z;
  emb_dim : Z;
  num_layers : Z;
  emb_dropout : float;
  dropout : float;
  max_dec_len : Z;
  beam_size : Z;
  attn_type : string;
  enc2dec : string;
  sample_train : float;
  optim : string;
  lr : float;
  lr_decay : float;
  decay_epoch : Z;
  num_epoch : Z;
  batch_size : Z;
  max_grad_norm : float;
  log_step : Z;
  save_dir : string;
  save_name : option string;
  seed : Z;
  cuda : bool;
  cpu : bool;
  vocab_size : option Z
}.

(** [args.cuda = False] *)
Definition set_cuda (v : bool) (a : Args) : Args :=
  mkArgs (data_dir a) (train_file a) (eval_file a) (output_file a) (gold_file a)
    (mode a) (lang a) (best_param a) (dict_only a) (hidden_dim a) (emb_dim a)
    (num_layers a) (emb_dropout a) (dropout a) (max_dec_len a) (beam_size a)
    (attn_type a) (enc2dec a) (sample_train a) (optim a) (lr a) (lr_decay a)
    (decay_epoch a) (num_epoch a) (batch_size a) (max_grad_norm a) (log_step a)
    (save_dir a) (save_name a) (seed a) v (cpu a) (vocab_size a).

(** [args['vocab_size'] = ...] *)
Definition set_vocab_size (v : Z) (a : Args) : Args :=
  mkArgs (data_dir a) (train_file a) (eval_file a) (output_file a) (gold_file a)
    (mode a) (lang a) (best_param a) (dict_only a) (hidden_dim a) (emb_dim a)
    (num_layers a) (emb_dropout a) (dropout a) (max_dec_len a) (beam_size a)
    (attn_type a) (enc2dec a) (sample_train a) (optim a) (lr a) (lr_decay a)
    (decay_epoch a) (num_epoch a) (batch_size a) (max_grad_norm a) (log_step a)
    (save_dir a) (save_name a) (seed a) (cuda a) (cpu a) (Some v).

(** [args['save_name'] = ...] *)
Definition set_save_name (v : string) (a : Args) : Args :=
  mkArgs (data_dir a) (train_file a) (eval_file a) (output_file a) (gold_file a)
    (mode a) (lang a) (best_param a) (dict_only a) (hidden_dim a) (emb_dim a)
    (num_layers a) (emb_dropout a) (dropout a) (max_dec_len a) (beam_size a)
    (attn_type a) (enc2dec a) (sample_train a) (optim a) (lr a) (lr_decay a)
    (decay_epoch a) (num_epoch a) (batch_size a) (max_grad_norm a) (log_step a)
    (save_dir a) (Some v) (seed a) (cuda a) (cpu a) (vocab_size a).

(** [str.format] renders [None] as the text [None]. *)
Definition py_str (o : option string) : string :=
  match o with Some s => s | None => "None"%string end.

(** ['{}/{}'.format(a, b)] *)
Definition fmt_slash (a : string) (b : option string) : string :=
  (a ++ "/" ++ py_str b)%string.

(** ['{}/{}_config.json'.format(save_dir, lang)] *)
Definition config_path (a : Args) : string :=
  (save_dir a ++ "/" ++ py_str (lang a) ++ "_config.json")%string.

(** ['{}/{}_mwt_expander.pt'.format(save_dir, lang)] *)
Definition default_model_path (a : Args) : string :=
  (save_dir a ++ "/" ++ py_str (lang a) ++ "_mwt_expander.pt")%string.

(** [range(a, b)] *)
Definition py_range (a b : Z) : list Z :=
  map (fun i => a + Z.of_nat i) (seq 0 (Z.to_nat (b - a))).

(** [max(xs)] on a list of floats: the first item is kept until a later one
    compares [>] to it; [None] stands for the [ValueError] on an empty list. *)
Fixpoint py_max_from (m : float) (xs : list float) : float :=
  match xs with
  | [] => m
  | x :: xs' => py_max_from (if PyFloat.gtb x m then x else m) xs'
  end.

Definition py_max (xs : list float) : option float :=
  match xs with
  | [] => None
  | x :: xs' => Some (py_max_from x xs')
  end.

(** [xs[-1]]; [None] stands for the [IndexError] on an empty list. *)
Definition py_last (xs : list float) : option float :=
  match xs with
  | [] => None
  | x :: xs' => Some (last xs' x)
  end.

(** [np.argmax(xs)] on a list of floats, as numpy's argmax loop for doubles
    computes it: the index of the first greatest item, a NaN counting as
    greatest and ending the scan.  [mp] is the running maximum, [best] its
    index, [i] the index of the head of [xs]. *)
Fixpoint np_argmax_from (mp : float) (best i : nat) (xs : list float) : nat :=
  match xs with
  | [] => best
  | x :: xs' =>
      if PrimFloat.is_nan mp then best
      else if negb (PrimFloat.leb x mp) then np_argmax_from x i (S i) xs'
      else np_argmax_from mp best (S i) xs'
  end.

Definition np_argmax (xs : list float) : option nat :=
  match xs with
  | [] => None
  | x :: xs' => Some (np_argmax_from x 0 1 xs')
  end.

(** Conversion of a Python [int] to [float] in mixed arithmetic: correctly
    rounded, [None] standing for the [OverflowError] of an [int] too large. *)
Definition float_of_int (z : Z) : option float :=
  let f := SF2Prim (binary_normalize prec emax z 0 false) in
  if PrimFloat.is_infinity f then None else Some f.

(** The float constant [100.0], the value of the literal [100] in [x * 100]. *)
Definition hundred : float := 100%float.

(** ** Collaborators

    The data loader, the two trainers, the scorer, the configuration files
    and the preset store live in other modules.  Their data is kept
    abstract ([Sorts]), every call on them is an [Event] of the run, and
    what a call returns is a function of the events so far ([Env]): the most
    general deterministic collaborator. They are taken to return normally. *)
Record Sorts := mkSorts {
  Batch : Type;   (* a batch a [DataLoader] yields *)
  Pred : Type;    (* one predicted expansion *)
  Vocab : Type;   (* [DataLoader.vocab] *)
  Doc : Type;     (* [DataLoader.conll] *)
  Pairs : Type;   (* the result of [get_mwt_expansions] *)
  Cands : Type    (* the result of [get_mwt_expansion_cands] *)
}.

(** [DictTrainer] or [Trainer]. *)
Inductive TrainerKind := KDict | KSeq.

(** What [print] writes, one constructor per format string.  The time stamp
    and the duration of the step line are wall-clock readings and are left
    out of [MsgStep]. *)
Inductive Msg :=
| MsgRunning (m : Mode)
| MsgLoading (dir : string) (bs : Z)
| MsgSkipTraining
| MsgTrainingDict
| MsgEvaluatingDev
| MsgDevF1 (f100 : float)
| MsgStep (global_step max_steps epoch n_epoch : Z) (loss cur_lr : float)
| MsgEpoch (epoch : Z) (train_loss dev_score : float)
| MsgNewBest
| MsgBlank
| MsgTrainingEnded (epoch : Z)
| MsgBest (best_f : float) (best_epoch : Z)
| MsgSkipEval
| MsgScoreHeader
| MsgLangOnly (l : option string)
| MsgStartEval
| MsgLangScore (l : option string) (score100 : float).

Section Model.
Context {T : Sorts}.

(** A [DataLoader] object: the batches it yields when iterated (its [len] is
    their number), [num_examples], [vocab] and [conll]. *)
Record Loader := mkLoader {
  batches : list (Batch T);
  num_examples : Z;
  vocab : Vocab T;
  conll : Doc T
}.

Definition loader_len (d : Loader) : Z := Z.of_nat (List.length (batches d)).

Inductive Event :=
| EvTorchSeed (s : Z)                       (* torch.manual_seed *)
| EvNumpySeed (s : Z)                       (* np.random.seed *)
| EvRandomSeed (s : Z)                      (* random.seed *)
| EvCudaSeed (s : Z)                        (* torch.cuda.manual_seed *)
| EvPrint (m : Msg)
| EvDataLoader (path : string) (bs : Z) (a : Args) (evaluation : bool)
| EvParamManager (dir : string) (l : option string)
| EvLoadToArgs (a : Args)                   (* param_manager.load_to_args *)
| EvSaveConfig (a : Args) (path : string)   (* utils.save_config *)
| EvLoadConfig (path : string)              (* utils.load_config *)
| EvTrainerNew (k : TrainerKind) (a : Args) (v : option (Vocab T))
| EvTrain (p : Pairs T)                     (* DictTrainer.train *)
| EvPredictCands (c : Cands T)              (* DictTrainer.predict *)
| EvUpdate (b : Batch T)                    (* Trainer.update *)
| EvPredict (b : Batch T)                   (* Trainer.predict *)
| EvWriteConll (d : Doc T) (preds : list (Pred T)) (path : string)
| EvScore (system_pred_file : string) (gold : option string)
| EvSave (k : TrainerKind) (path : option string)
| EvLoad (k : TrainerKind) (path : option string)
| EvChangeLr (new_lr : float)               (* Trainer.change_lr *)
| EvParamUpdate (a : Args) (best_f : float). (* param_manager.update *)

(** What the collaborators answer.  Each [_ans] function receives the events
    of the run up to and including the call it answers. *)
Record Env := mkEnv {
  vocab_len : Vocab T -> Z;
  get_mwt_expansions : Doc T -> Pairs T;
  get_mwt_expansion_cands : Doc T -> Cands T;
  data_loader_ans : list Event -> Loader;
  load_to_args_ans : list Event -> Args;
  load_config_ans : list Event -> Args;
  update_ans : list Event -> float;
  predict_ans : list Event -> list (Pred T);
  score_ans : list Event -> float * float * float
}.

(** ** The monad of a run

    A computation reads the events so far and yields the events it adds and
    either a value or the exception that ended it.  The events before an
    exception stay: a file written before a crash is written. *)
Definition M (A : Type) : Type := list Event -> list Event * (PyExn + A).

Definition ret {A} (a : A) : M A := fun _ => ([], inr a).

Definition bind {A B} (m : M A) (k : A -> M B) : M B :=
  fun l =>
    let (d1, r) := m l in
    match r with
    | inl e => (d1, inl e)
    | inr a => let (d2, r2) := k a (l ++ d1) in (d1 ++ d2, r2)
    end.

Definition raise {A} (e : PyExn) : M A := fun _ => ([], inl e).

(** A call whose result is not used. *)
Definition emit (e : Event) : M unit := fun _ => ([e], inr tt).

(** A call answered by the collaborator. *)
Definition call {A} (e : Event) (ans : list Event -> A) : M A :=
  fun l => ([e], inr (ans (l ++ [e]))).

Definition print (m : Msg) : M unit := emit (EvPrint m).

(** [None] where Python raises [e]. *)
Definition or_raise {A} (e : PyExn) (o : option A) : M A :=
  match o with Some a => ret a | None => raise e end.

End Model.

Arguments Loader : clear implicits.
Arguments Event : clear implicits.
Arguments Env : clear implicits.
Arguments M : clear implicits.

Declare Scope py_scope.
Delimit Scope py_scope with py.
Notation "x <- c ;; k" := (bind c (fun x => k))
  (at level 61, c at next level, right associativity) : py_scope.
Notation "c ;; k" := (bind c (fun _ => k))
  (at level 61, right associativity) : py_scope.

(** ** The orchestrator *)
Section Orchestrator.
Context {T : Sorts} (E : Env T).
Local Open Scope py_scope.

(** [for x in xs: s = body(x, s)] *)
Fixpoint for_each {A S : Type} (xs : list A) (body : A -> S -> M T S) (s : S)
  : M T S :=
  match xs with
  | [] => ret s
  | x :: xs' => s' <- body x s ;; for_each xs' body s'
  end.

(** [DataLoader(path, batch_size, args, evaluation=...)] *)
Definition new_data_loader (path : string) (bs : Z) (a : Args) (ev : bool)
  : M T (Loader T) :=
  call (EvDataLoader path bs a ev) (data_loader_ans E).

(** [a + b] where [b] may be [None]: a [TypeError] then. *)
Definition str_add (a : string) (b : option string) : M T string :=
  match b with
  | Some s => ret (a ++ s)%string
  | None => raise TypeError
  end.

(** [a % b] on ints. *)
Definition py_mod (a b : Z) : M T Z :=
  if b =? 0 then raise ZeroDivisionError else ret (a mod b).

(** [train_loss / num_examples * batch_size], a float by two ints. *)
Definition avg_loss (train_loss : float) (n_examples bs : Z) : M T float :=
  n <- or_raise OverflowError (float_of_int n_examples) ;;
  (if PrimFloat.eqb n 0 then raise ZeroDivisionError else ret tt) ;;
  b <- or_raise OverflowError (float_of_int bs) ;;
  ret (train_loss / n * b)%float.

(** The body of the loop over the training batches (lines 137-145); the
    state is [(global_step, train_loss)].  [train_loss] starts as the int
    [0], and [0 + loss] is [0.0 + loss]: it is a float throughout here. *)
Definition update_step (args : Args) (max_steps epoch : Z) (cur_lr : float)
    (batch : Batch T) (s : Z * float) : M T (Z * float) :=
  let global_step := fst s + 1 in
  loss <- call (EvUpdate batch) (update_ans E) ;;
  let train_loss := (snd s + loss)%float in
  r <- py_mod global_step (log_step args) ;;
  (if r =? 0
   then print (MsgStep global_step max_steps epoch (num_epoch args) loss cur_lr)
   else ret tt) ;;
  ret (global_step, train_loss).

(** The body of a loop over batches to predict (lines 150-152, 210-211). *)
Definition predict_step (batch : Batch T) (preds : list (Pred T))
  : M T (list (Pred T)) :=
  ps <- call (EvPredict batch) (predict_ans E) ;;
  ret (preds ++ ps)%list.

(** [write_conll_with_mwt_expansions] then [scorer.score]; the F1 of the
    triple is the result. *)
Definition write_and_score (d : Doc T) (preds : list (Pred T))
    (system_pred_file : string) (gold : option string) : M T float :=
  emit (EvWriteConll d preds system_pred_file) ;;
  prf <- call (EvScore system_pred_file gold) (score_ans E) ;;
  ret (snd prf).

(** Lines 159-162: save the best model. *)
Definition save_best (args : Args) (epoch : Z) (dev_score : float)
    (history : list float) : M T unit :=
  better <- (if epoch =? 1 then ret true
             else m <- or_raise ValueError (py_max history) ;;
                  ret (PyFloat.gtb dev_score m)) ;;
  if better : bool
  then emit (EvSave KSeq (save_name args)) ;; print MsgNewBest
  else ret tt.

(** Lines 164-167: the learning-rate schedule; the result is [current_lr]. *)
Definition lr_schedule (args : Args) (epoch : Z) (dev_score : float)
    (history : list float) (cur_lr : float) : M T float :=
  decay <- (if decay_epoch args <? epoch
            then prev <- or_raise IndexError (py_last history) ;;
                 ret (PrimFloat.leb dev_score prev)
            else ret false) ;;
  if decay : bool
  then let cur_lr := (cur_lr * lr_decay args)%float in
       emit (EvChangeLr cur_lr) ;; ret cur_lr
  else ret cur_lr.

(** The local variables that live across epochs. *)
Record LoopSt := mkLoop {
  global_step : Z;
  current_lr : float;
  dev_score_history : list float
}.

(** Lines 136-157 of the epoch loop: one pass over the training batches,
    the evaluation on the dev set and the summary line.  The result is
    [(global_step, dev_score)]. *)
Definition epoch_measure (args : Args) (train_batch dev_batch : Loader T)
    (system_pred_file : string) (gold : option string) (max_steps : Z)
    (epoch : Z) (s : LoopSt) : M T (Z * float) :=
  gl <- for_each (batches train_batch)
          (update_step args max_steps epoch (current_lr s))
          (global_step s, 0%float) ;;
  print MsgEvaluatingDev ;;
  dev_preds <- for_each (batches dev_batch) predict_step [] ;;
  dev_score <- write_and_score (conll dev_batch) dev_preds
                 system_pred_file gold ;;
  train_loss <- avg_loss (snd gl) (num_examples train_batch)
                  (batch_size args) ;;
  print (MsgEpoch epoch train_loss dev_score) ;;
  ret (fst gl, dev_score).

(** Lines 159-170 of the epoch loop: the two decisions, then the append to
    the history. *)
Definition epoch_decide (args : Args) (epoch : Z) (s : LoopSt)
    (gd : Z * float) : M T LoopSt :=
  let dev_score := snd gd in
  save_best args epoch dev_score (dev_score_history s) ;;
  new_lr <- lr_schedule args epoch dev_score (dev_score_history s)
              (current_lr s) ;;
  let history := (dev_score_history s ++ [dev_score])%list in
  print MsgBlank ;;
  ret (mkLoop (fst gd) new_lr history).

(** The body of the epoch loop (lines 136-170). *)
Definition epoch_body (args : Args) (train_batch dev_batch : Loader T)
    (system_pred_file : string) (gold : option string) (max_steps : Z)
    (epoch : Z) (s : LoopSt) : M T LoopSt :=
  gd <- epoch_measure args train_batch dev_batch system_pred_file gold
          max_steps epoch s ;;
  epoch_decide args epoch s gd.

(** The epoch loop (lines 127-170); the result is the final state of the
    local variables. *)
Definition epoch_loop (args : Args) (train_batch dev_batch : Loader T)
    (system_pred_file : string) (gold : option string) : M T LoopSt :=
  let max_steps := loader_len train_batch * num_epoch args in
  for_each (py_range 1 (num_epoch args + 1))
    (epoch_body args train_batch dev_batch system_pred_file gold max_steps)
    (mkLoop 0 (lr args) []).

(** Lines 172-177: the report and the preset update.  [epoch] is bound only
    if the loop ran. *)
Definition report_best (args : Args) (history : list float) : M T unit :=
  epoch <- or_raise NameError
             (last (map Some (py_range 1 (num_epoch args + 1))) None) ;;
  print (MsgTrainingEnded epoch) ;;
  m <- or_raise ValueError (py_max history) ;;
  let best_f := (m * hundred)%float in
  i <- or_raise ValueError (np_argmax history) ;;
  let best_epoch := Z.of_nat i + 1 in
  print (MsgBest best_f best_epoch) ;;
  emit (EvParamUpdate args best_f).

(** Lines 124-177: train a seq2seq model. *)
Definition train_seq2seq (args : Args) (train_batch dev_batch : Loader T)
    (system_pred_file : string) (gold : option string) : M T unit :=
  emit (EvTrainerNew KSeq args (Some (vocab train_batch))) ;;
  s <- epoch_loop args train_batch dev_batch system_pred_file gold ;;
  report_best args (dev_score_history s).

(** Lines 113-122: train a dictionary-based expander. *)
Definition train_dict (args : Args) (train_batch dev_batch : Loader T)
    (system_pred_file : string) (gold : option string) : M T unit :=
  emit (EvTrainerNew KDict args None) ;;
  print MsgTrainingDict ;;
  emit (EvTrain (get_mwt_expansions E (conll train_batch))) ;;
  print MsgEvaluatingDev ;;
  dev_preds <- call (EvPredictCands
                       (get_mwt_expansion_cands E (conll dev_batch)))
                 (predict_ans E) ;;
  dev_f <- write_and_score (conll dev_batch) dev_preds
             system_pred_file gold ;;
  print (MsgDevF1 (dev_f * hundred)%float) ;;
  emit (EvSave KDict (save_name args)).

(** Lines 92-94: the model file the run saves to. *)
Definition model_file_of (args : Args) : string :=
  match save_name args with
  | Some n => (save_dir args ++ "/" ++ n)%string
  | None => default_model_path args
  end.

(** What lines 85-104 of [train] establish before the no-data check. *)
Record Setup := mkSetup {
  su_args : Args;
  su_train : Loader T;
  su_dev : Loader T;
  su_pred_file : string;
  su_gold : option string
}.

(** Lines 85-104 of [train]: load the data, resolve the paths, save the
    configuration. *)
Definition train_setup (args : Args) : M T Setup :=
  print (MsgLoading (data_dir args) (batch_size args)) ;;
  train_batch <- new_data_loader (fmt_slash (data_dir args) (train_file args))
                   (batch_size args) args false ;;
  let args := set_vocab_size (vocab_len E (vocab train_batch)) args in
  dev_batch <- new_data_loader (fmt_slash (data_dir args) (eval_file args))
                 (batch_size args) args true ;;
  let args := set_save_name (model_file_of args) args in
  system_pred_file <- str_add (data_dir args ++ "/") (output_file args) ;;
  let gold := gold_file args in
  emit (EvParamManager "params/mwt" (lang args)) ;;
  args <- (if best_param args
           then call (EvLoadToArgs args) (load_to_args_ans E)
           else ret args) ;;
  emit (EvSaveConfig args (config_path args)) ;;
  ret (mkSetup args train_batch dev_batch system_pred_file gold).

(** [train(args)] *)
Definition train (args : Args) : M T unit :=
  su <- train_setup args ;;
  if (loader_len (su_train su) =? 0) || (loader_len (su_dev su) =? 0)
  then print MsgSkipTraining ;; raise SystemExit
  else if dict_only (su_args su)
  then train_dict (su_args su) (su_train su) (su_dev su)
         (su_pred_file su) (su_gold su)
  else train_seq2seq (su_args su) (su_train su) (su_dev su)
         (su_pred_file su) (su_gold su).

(** [evaluate(args)] *)
Definition evaluate (args : Args) : M T unit :=
  loaded_args <- call (EvLoadConfig (config_path args)) (load_config_ans E) ;;
  print (MsgLoading (data_dir args) (batch_size args)) ;;
  batch <- new_data_loader (fmt_slash (data_dir args) (eval_file args))
             (batch_size args) loaded_args true ;;
  if loader_len batch =? 0
  then print MsgSkipEval ;; print MsgScoreHeader ;;
       print (MsgLangOnly (lang args)) ;; raise SystemExit
  else
    system_pred_file <- str_add (data_dir args ++ "/") (output_file args) ;;
    let gold := gold_file args in
    let model_file := save_name loaded_args in
    preds <- (if dict_only loaded_args
              then emit (EvTrainerNew KDict loaded_args None) ;;
                   emit (EvLoad KDict model_file) ;;
                   call (EvPredictCands
                           (get_mwt_expansion_cands E (conll batch)))
                     (predict_ans E)
              else emit (EvTrainerNew KSeq loaded_args (Some (vocab batch))) ;;
                   emit (EvLoad KSeq model_file) ;;
                   print MsgStartEval ;;
                   for_each (batches batch) predict_step []) ;;
    score <- write_and_score (conll batch) preds system_pred_file gold ;;
    print MsgScoreHeader ;;
    print (MsgLangScore (lang args) (score * hundred)%float).

(** [main()], from the parsed arguments on. *)
Definition main (args : Args) : M T unit :=
  emit (EvTorchSeed (seed args)) ;;
  emit (EvNumpySeed (seed args)) ;;
  emit (EvRandomSeed 1234) ;;
  args <- (if cpu args then ret (set_cuda false args)
           else if cuda args then emit (EvCudaSeed (seed args)) ;; ret args
           else ret args) ;;
  print (MsgRunning (mode args)) ;;
  match mode args with
  | ModeTrain => train args
  | ModePredict => evaluate args
  end.

(** A whole run: the events of the process and how it ended. *)
Definition run {A} (m : M T A) : list (Event T) * (PyExn + A) := m [].

End Orchestrator.

(** ** Reading a run

    What the log of a run shows of each epoch: the epoch number and dev score
    of its summary line, whether [Trainer.save] was called and which rate
    [Trainer.change_lr] was given before the next summary line. *)
Section Reading.
Context {T : Sorts}.

Record EpochRec := mkRec {
  rec_epoch : Z;
  rec_score : float;
  rec_saved : bool;
  rec_lr : option float
}.

Definition is_summary (e : Event T) : bool :=
  match e with EvPrint (MsgEpoch _ _ _) => true | _ => false end.

Definition is_seq_save (e : Event T) : bool :=
  match e with EvSave KSeq _ => true | _ => false end.

Definition lr_change (e : Event T) : option float :=
  match e with EvChangeLr x => Some x | _ => None end.

(** The events before the next summary line. *)
Fixpoint until_summary (l : list (Event T)) : list (Event T) :=
  match l with
  | [] => []
  | e :: l' => if is_summary e then [] else e :: until_summary l'
  end.

Fixpoint first_lr_change (l : list (Event T)) : option float :=
  match l with
  | [] => None
  | e :: l' =>
      match lr_change e with
      | Some x => Some x
      | None => first_lr_change l'
      end
  end.

Fixpoint epoch_records (l : list (Event T)) : list EpochRec :=
  match l with
  | [] => []
  | EvPrint (MsgEpoch ep _ sc) :: l' =>
      mkRec ep sc (existsb is_seq_save (until_summary l'))
        (first_lr_change (until_summary l')) :: epoch_records l'
  | _ :: l' => epoch_records l'
  end.

(** The rate after a decision that changed it to [chg], if it did. *)
Definition next_lr (c : float) (chg : option float) : float :=
  match chg with Some x => x | None => c end.

(** The learning rate in force after the epochs [rs], from [lr0]. *)
Fixpoint lr_in_force (lr0 : float) (rs : list EpochRec) : float :=
  match rs with
  | [] => lr0
  | r :: rs' => lr_in_force (next_lr lr0 (rec_lr r)) rs'
  end.

(** The seed [random.seed] was first given in a run, the seeds given to
    torch and to numpy. *)
Fixpoint random_seed_of (l : list (Event T)) : option Z :=
  match l with
  | [] => None
  | EvRandomSeed s :: _ => Some s
  | _ :: l' => random_seed_of l'
  end.

Fixpoint torch_seed_of (l : list (Event T)) : option Z :=
  match l with
  | [] => None
  | EvTorchSeed s :: _ => Some s
  | _ :: l' => torch_seed_of l'
  end.

Fixpoint numpy_seed_of (l : list (Event T)) : option Z :=
  match l with
  | [] => None
  | EvNumpySeed s :: _ => Some s
  | _ :: l' => numpy_seed_of l'
  end.

(** Calls on a trainer: construction, training, prediction, loading or
    saving of either kind. *)
Definition is_trainer_call (e : Event T) : bool :=
  match e with
  | EvTrainerNew _ _ _ | EvTrain _ | EvPredictCands _ | EvUpdate _
  | EvPredict _ | EvSave _ _ | EvLoad _ _ | EvChangeLr _ => true
  | _ => false
  end.

Definition is_save (e : Event T) : bool :=
  match e with EvSave _ _ => true | _ => false end.

Definition is_score (e : Event T) : bool :=
  match e with EvScore _ _ => true | _ => false end.

End Reading.

(** ** The two decisions of an epoch, as functions of what they read *)
Section Decisions.
Context {T : Sorts}.

(** Events that are neither a summary line, a [Trainer.save] nor a
    [Trainer.change_lr]. *)
Definition quiet (e : Event T) : bool :=
  negb (is_summary e) && negb (is_seq_save e) &&
  match lr_change e with Some _ => false | None => true end.

(** The condition of line 160, with [False] where [max] has nothing to
    compare. *)
Definition save_cond (epoch : Z) (dev_score : float) (history : list float)
  : bool :=
  (epoch =? 1) ||
  match py_max history with
  | Some m => PyFloat.gtb dev_score m
  | None => false
  end.

(** The rate line 167 hands to [change_lr], if lines 165-166 decay it. *)
Definition decay_lr (args : Args) (epoch : Z) (dev_score : float)
    (history : list float) (cur_lr : float) : option float :=
  if decay_epoch args <? epoch then
    match py_last history with
    | Some prev =>
        if PrimFloat.leb dev_score prev
        then Some (cur_lr * lr_decay args)%float
        else None
    | None => None
    end
  else None.

Definition is_nil {A} (xs : list A) : bool :=
  match xs with [] => true | _ => false end.

(** What the records of the epochs [eps], run from the history [h] and
    the rate [c], must show. *)
Fixpoint records_follow (args : Args) (eps : list Z) (h : list float)
    (c : float) (rs : list EpochRec) {struct rs} : Prop :=
  match rs with
  | [] => True
  | r :: rs' =>
      match eps with
      | [] => False
      | e :: eps' =>
          rec_epoch r = e /\
          rec_saved r = save_cond e (rec_score r) h /\
          rec_lr r = decay_lr args e (rec_score r) h c /\
          records_follow args eps' (h ++ [rec_score r])
            (next_lr c (rec_lr r)) rs'
      end
  end.

(** What keeps lines 142 and 156 from raising: a log step other than [0],
    a number of examples that converts to a float other than [0.0], a batch
    size that converts to a float. *)
Definition loss_computable (args : Args) (train_batch : Loader T) : Prop :=
  log_step args <> 0 /\
  exists n b,
    float_of_int (num_examples train_batch) = Some n /\
    PrimFloat.eqb n 0 = false /\
    float_of_int (batch_size args) = Some b.

End Decisions.

(** ** The vocabulary of the statements *)
Section Vocabulary.
Context {T : Sorts}.

(** A history without NaN. *)
Definition all_num (xs : list float) : Prop :=
  Forall (fun x => PyFloat.not_nan x = true) xs.

(** [m] emits only events in [P] and raises only exceptions in [X]. *)
Definition obeys {A} (P : Event T -> Prop) (X : PyExn -> Prop) (m : M T A)
  : Prop :=
  forall l d r, m l = (d, r) ->
    Forall P d /\ (forall e, r = inl e -> X e).

Definition quietP (e : Event T) : Prop := quiet e = true.

(** The exceptions of the loss arithmetic of lines 142 and 156. *)
Definition loss_exn (x : PyExn) : Prop :=
  x = ZeroDivisionError \/ x = OverflowError.

Definition never (x : PyExn) : Prop := False.

Definition no_summary (d : list (Event T)) : Prop :=
  Forall (fun e => is_summary e = false) d.

(** The events before the first summary line hold no save and no rate
    change. *)
Definition quiet_head (d : list (Event T)) : Prop :=
  existsb is_seq_save (until_summary d) = false /\
  first_lr_change (until_summary d) = None.

Definition calls_no_trainer (d : list (Event T)) : Prop :=
  Forall (fun e => is_trainer_call e = false) d.

(** The predictions a loop over the batches [xs] collects, from [ps] and
    the log [l]. *)
Fixpoint predict_all (E : Env T) (xs : list (Batch T)) (ps : list (Pred T))
    (l : list (Event T)) : list (Pred T) :=
  match xs with
  | [] => ps
  | x :: xs' =>
      predict_all E xs' (ps ++ predict_ans E (l ++ [EvPredict x]))%list
        (l ++ [EvPredict x])%list
  end.

End Vocabulary.

(** ** The preset store *)

(** Modelled from the spec: [ParamManager.update] of [models/common/param.py],
    which is not among the sources.  The store keeps, per language, the
    best-known configuration and the F1 it achieved; an update overwrites
    the record of the language only if the new score is strictly better
    than the stored one, and a language without a record gets one. *)
Record PresetRecord := mkPreset {
  preset_args : Args;
  preset_f : float
}.

Definition PresetStore : Type := option string -> option PresetRecord.

Definition same_lang (a b : option string) : bool :=
  match a, b with
  | Some x, Some y => String.eqb x y
  | None, None => true
  | _, _ => false
  end.

Definition preset_update (st : PresetStore) (lg : option string)
    (a : Args) (f : float) : PresetStore :=
  let write := fun k => if same_lang k lg then Some (mkPreset a f) else st k in
  match st lg with
  | Some old => if PrimFloat.ltb (preset_f old) f then write else st
  | None => write
  end.

(** ** A small environment to run the orchestrator on

    Batches, predictions and documents are numbers; the scorer answers the
    [k]-th scoring call with the [k]-th entry of [scores] as F1. *)
Module Sample.

Local Open Scope string_scope.

Definition sorts : Sorts := mkSorts nat nat nat nat nat nat.

Definition args0 : Args :=
  mkArgs "data/mwt" (Some "train.conllu") (Some "dev.conllu")
    (Some "pred.conllu") (Some "gold.conllu") ModeTrain (Some "sl")
    false false 100 50 1 0.5%float 0.5%float 50 1 "soft" "no" 1%float
    "adam" 0.125%float 0.5%float 1 3 50 5%float 20 "saved_models/mwt"
    None 1234 false false None.

Definition with_schedule (decay_ep n_ep : Z) (a : Args) : Args :=
  mkArgs (data_dir a) (train_file a) (eval_file a) (output_file a) (gold_file a)
    (mode a) (lang a) (best_param a) (dict_only a) (hidden_dim a) (emb_dim a)
    (num_layers a) (emb_dropout a) (dropout a) (max_dec_len a) (beam_size a)
    (attn_type a) (enc2dec a) (sample_train a) (optim a) (lr a) (lr_decay a)
    decay_ep n_ep (batch_size a) (max_grad_norm a) (log_step a)
    (save_dir a) (save_name a) (seed a) (cuda a) (cpu a) (vocab_size a).

Definition with_flags (m : Mode) (dict best : bool) (sd : Z) (a : Args) : Args :=
  mkArgs (data_dir a) (train_file a) (eval_file a) (output_file a) (gold_file a)
    m (lang a) best dict (hidden_dim a) (emb_dim a)
    (num_layers a) (emb_dropout a) (dropout a) (max_dec_len a) (beam_size a)
    (attn_type a) (enc2dec a) (sample_train a) (optim a) (lr a) (lr_decay a)
    (decay_epoch a) (num_epoch a) (batch_size a) (max_grad_norm a) (log_step a)
    (save_dir a) (save_name a) sd (cuda a) (cpu a) (vocab_size a).

Definition count_scores (l : list (Event sorts)) : nat :=
  List.length (filter is_score l).

(** The loader of the last [DataLoader] call: [dev] when it is built for
    evaluation, [trn] otherwise. *)
Definition loader_for (trn dev : list nat) (l : list (Event sorts))
  : Loader sorts :=
  match last l (EvPrint MsgBlank) with
  | EvDataLoader _ _ _ true =>
      @mkLoader sorts dev (7 * Z.of_nat (List.length dev)) 30%nat 2%nat
  | _ => @mkLoader sorts trn (7 * Z.of_nat (List.length trn)) 30%nat 1%nat
  end.

Definition args_of_call (dflt : Args) (l : list (Event sorts)) : Args :=
  match last l (EvPrint MsgBlank) with
  | EvLoadToArgs a => a
  | _ => dflt
  end.

Definition preds_of_call (l : list (Event sorts)) : list nat :=
  match last l (EvPrint MsgBlank) with
  | EvPredict b => [b]
  | EvPredictCands c => [c; c]
  | _ => []
  end.

Definition env (trn dev : list nat) (scores : list float) (stored : Args)
  : Env sorts :=
  @mkEnv sorts
    (fun v => Z.of_nat v)
    (fun d => (10 + d)%nat)
    (fun d => (20 + d)%nat)
    (loader_for trn dev)
    (args_of_call stored)
    (fun _ => stored)
    (fun _ => 0.25%float)
    preds_of_call
    (fun l => (1%float, 1%float,
               nth (count_scores l - 1) scores 0%float)).

Definition train_loader : Loader sorts := @mkLoader sorts [1; 2]%nat 14 30%nat 1%nat.
Definition dev_loader : Loader sorts := @mkLoader sorts [5]%nat 7 30%nat 2%nat.

(** Three epochs whose third score ties with the first. *)
Definition env_tie : Env sorts :=
  env [1; 2]%nat [5]%nat [0.5; 0.25; 0.5]%float args0.

(** Three epochs whose third score is above the second and below the
    first. *)
Definition env_dip : Env sorts :=
  env [1; 2]%nat [5]%nat [0.5; 0.25; 0.375]%float args0.


(** The command line asks for the dictionary strategy. *)
Definition args_dict : Args := with_flags ModeTrain true false 1234 args0.

(** A stored configuration of a dictionary model, read back at evaluation
    while the command line does not ask for the dictionary strategy. *)
Definition stored_dict : Args :=
  set_save_name "saved_models/mwt/sl_mwt_expander.pt" args_dict.

Definition env_stored : Env sorts :=
  env [1; 2]%nat [5; 6]%nat [0.5]%float stored_dict.


Definition no_setup : Setup (T:=sorts) :=
  mkSetup args0 train_loader dev_loader "" None.

(** The log and the result of the setup of [train] on [args], run from an
    empty log. *)
Definition setup_log (E : Env sorts) (a : Args) : list (Event sorts) :=
  fst (train_setup E a []).

Definition setup_result (E : Env sorts) (a : Args) : Setup (T:=sorts) :=
  match snd (train_setup E a []) with
  | inr su => su
  | inl _ => no_setup
  end.

End Sample.

(** ** More readings of a log *)
Section MoreReading.
Context {T : Sorts}.

Definition is_update (e : Event T) : bool :=
  match e with EvUpdate _ => true | _ => false end.

Definition is_predict (e : Event T) : bool :=
  match e with EvPredict _ => true | _ => false end.

(** The work of the epoch loop on its collaborators: update steps,
    predictions on batches and scorings. *)
Definition is_work (e : Event T) : bool :=
  is_update e || is_predict e || is_score e.

Definition is_param_update (e : Event T) : bool :=
  match e with EvParamUpdate _ _ => true | _ => false end.

(** Calls that change a model, a checkpoint, a configuration file or the
    preset store. *)
Definition is_mutation (e : Event T) : bool :=
  match e with
  | EvSave _ _ | EvUpdate _ | EvTrain _ | EvChangeLr _ | EvSaveConfig _ _
  | EvParamUpdate _ _ => true
  | _ => false
  end.

(** The events the epoch loop can emit: calls on the seq2seq trainer and
    the scorer, lines of output, and saves to the one model file. *)
Definition loop_event (args : Args) (e : Event T) : Prop :=
  match e with
  | EvUpdate _ | EvPredict _ | EvPrint _ | EvWriteConll _ _ _ | EvScore _ _
  | EvChangeLr _ => True
  | EvSave k p => k = KSeq /\ p = save_name args
  | _ => False
  end.

Definition any_exn (x : PyExn) : Prop := True.

(** The calls [evaluate] can make; a write of predictions goes to
    [data_dir/output_file]. *)
Definition eval_event (args : Args) (e : Event T) : Prop :=
  match e with
  | EvLoadConfig _ | EvPrint _ | EvDataLoader _ _ _ _ | EvTrainerNew _ _ _
  | EvLoad _ _ | EvPredictCands _ | EvPredict _ | EvScore _ _ => True
  | EvWriteConll _ _ p =>
      exists f, output_file args = Some f /\
                p = ((data_dir args ++ "/") ++ f)%string
  | _ => False
  end.

(** The index of the last record with a save, [best] if there is none;
    [i] is the index of the head of [rs]. *)
Fixpoint last_saved_from (best : option nat) (i : nat) (rs : list EpochRec)
  : option nat :=
  match rs with
  | [] => best
  | r :: rs' =>
      last_saved_from (if rec_saved r then Some i else best) (S i) rs'
  end.

Definition last_saved (rs : list EpochRec) : option nat :=
  last_saved_from None 0 rs.

(** What one epoch asks of its collaborators when it completes. *)
Definition epoch_work (tb db : Loader T) (spf : string) (gold : option string)
  : list (Event T) :=
  (map (@EvUpdate T) (batches tb) ++ map (@EvPredict T) (batches db) ++
   [EvScore spf gold])%list.

(** The events of [main] before it hands over to [train] or [evaluate]. *)
Definition main_prelude (args : Args) : list (Event T) :=
  ([EvTorchSeed (seed args); EvNumpySeed (seed args); EvRandomSeed 1234] ++
   (if negb (cpu args) && cuda args then [EvCudaSeed (seed args)] else []) ++
   [EvPrint (MsgRunning (mode args))])%list.

End MoreReading.

(** ** The defaults of [parse_args] *)
Module Defaults.
Local Open Scope string_scope.

(** The namespace [parse_args] returns for a command line without options;
    [cuda_available] is [torch.cuda.is_available()].  The literals [1e-3]
    and [0.9] are written as the binary64 values they denote. *)
Definition default_args (cuda_available : bool) : Args :=
  mkArgs "data/mwt" None None None None ModeTrain None false false
    100 50 1 0.5%float 0.5%float 50 1 "soft" "no" 1%float "adam"
    0x1.0624dd2f1a9fcp-10%float 0x1.ccccccccccccdp-1%float 30 30 50 5%float 20
    "saved_models/mwt" None 1234 cuda_available false None.

(** The defaults with an output file, as a run that trains needs. *)
Definition with_output (f : string) (a : Args) : Args :=
  mkArgs (data_dir a) (train_file a) (eval_file a) (Some f) (gold_file a)
    (mode a) (lang a) (best_param a) (dict_only a) (hidden_dim a) (emb_dim a)
    (num_layers a) (emb_dropout a) (dropout a) (max_dec_len a) (beam_size a)
    (attn_type a) (enc2dec a) (sample_train a) (optim a) (lr a) (lr_decay a)
    (decay_epoch a) (num_epoch a) (batch_size a) (max_grad_norm a) (log_step a)
    (save_dir a) (save_name a) (seed a) (cuda a) (cpu a) (vocab_size a).

Definition with_log_step (k : Z) (a : Args) : Args :=
  mkArgs (data_dir a) (train_file a) (eval_file a) (output_file a) (gold_file a)
    (mode a) (lang a) (best_param a) (dict_only a) (hidden_dim a) (emb_dim a)
    (num_layers a) (emb_dropout a) (dropout a) (max_dec_len a) (beam_size a)
    (attn_type a) (enc2dec a) (sample_train a) (optim a) (lr a) (lr_decay a)
    (decay_epoch a) (num_epoch a) (batch_size a) (max_grad_norm a) k
    (save_dir a) (save_name a) (seed a) (cuda a) (cpu a) (vocab_size a).

Definition with_cpu (c : bool) (a : Args) : Args :=
  mkArgs (data_dir a) (train_file a) (eval_file a) (output_file a) (gold_file a)
    (mode a) (lang a) (best_param a) (dict_only a) (hidden_dim a) (emb_dim a)
    (num_layers a) (emb_dropout a) (dropout a) (max_dec_len a) (beam_size a)
    (attn_type a) (enc2dec a) (sample_train a) (optim a) (lr a) (lr_decay a)
    (decay_epoch a) (num_epoch a) (batch_size a) (max_grad_norm a) (log_step a)
    (save_dir a) (save_name a) (seed a) (cuda a) c (vocab_size a).

(** The epoch loop on the sample loaders, run from an empty log: its log
    and the state it returns. *)
Definition loop_log (E : Env Sample.sorts) (a : Args)
  : list (Event Sample.sorts) :=
  fst (epoch_loop E a Sample.train_loader Sample.dev_loader
         "pred.conllu" (Some "gold.conllu") []).

Definition loop_state (E : Env Sample.sorts) (a : Args) : LoopSt :=
  match snd (epoch_loop E a Sample.train_loader Sample.dev_loader
               "pred.conllu" (Some "gold.conllu") []) with
  | inr s => s
  | inl _ => mkLoop 0 0%float []
  end.

End Defaults.

(** ** The order of floats *)
Module PyFloatFacts.
Import PyFloat.

Lemma pcont_swap (p q : positive) :
  Pos.compare_cont Eq q p = CompOpp (Pos.compare_cont Eq p q).
Proof. exact (Pos.compare_antisym p q). Qed.

Lemma SFcompare_swap (x y : spec_float) :
  SFcompare y x = option_map CompOpp (SFcompare x y).
Proof.
  destruct x as [sx|sx| |sx mx ex], y as [sy|sy| |sy my ey]; simpl;
    try reflexivity;
    try (destruct sx; reflexivity);
    try (destruct sy; reflexivity);
    try (destruct sx, sy; reflexivity).
  destruct sx, sy; try reflexivity;
    rewrite (Z.compare_antisym ex ey), (pcont_swap mx my);
    destruct (ex ?= ey)%Z; simpl; try reflexivity;
    destruct (Pos.compare_cont Eq mx my); reflexivity.
Qed.

Lemma SFcompare_num (x y : spec_float) :
  sf_num x -> sf_num y -> exists c, SFcompare x y = Some c.
Proof.
  unfold sf_num; intros Hx Hy.
  destruct x as [sx|sx| |sx mx ex], y as [sy|sy| |sy my ey]; simpl;
    try congruence; eexists; reflexivity.
Qed.

Lemma sf_gt_not_le (x y : spec_float) :
  sf_num x -> sf_num y -> SFltb y x = negb (SFleb x y).
Proof.
  intros Hx Hy. unfold SFltb, SFleb. rewrite (SFcompare_swap x y).
  destruct (SFcompare_num x y Hx Hy) as [c ->]. destruct c; reflexivity.
Qed.

Ltac cmp_cases :=
  repeat match goal with
  | |- context [Pos.compare_cont Eq ?a ?b] =>
      change (Pos.compare_cont Eq a b) with (Pos.compare a b)
  | H : context [Pos.compare_cont Eq ?a ?b] |- _ =>
      change (Pos.compare_cont Eq a b) with (Pos.compare a b) in H
  end;
  repeat match goal with
  | H : context [Z.compare ?a ?b] |- _ =>
      destruct (Z.compare_spec a b); simpl in H; try discriminate H
  | H : context [Pos.compare ?a ?b] |- _ =>
      destruct (Pos.compare_spec a b); simpl in H; try discriminate H
  end;
  repeat match goal with
  | |- context [Z.compare ?a ?b] => destruct (Z.compare_spec a b); simpl
  | |- context [Pos.compare ?a ?b] => destruct (Pos.compare_spec a b); simpl
  end;
  try reflexivity; try discriminate; try lia.

Lemma sf_le_trans (x y z : spec_float) :
  sf_le x y -> sf_le y z -> sf_le x z.
Proof.
  unfold sf_le, SFleb.
  destruct x as [sx|sx| |sx mx ex], y as [sy|sy| |sy my ey],
           z as [sz|sz| |sz mz ez]; simpl;
    try discriminate; try reflexivity;
    repeat match goal with s : bool |- _ => destruct s end; simpl;
    try discriminate; try reflexivity;
    intros H1 H2; cmp_cases.
Qed.

Lemma sf_lt_le (x y : spec_float) : sf_lt x y -> sf_le x y.
Proof.
  unfold sf_lt, sf_le, SFltb, SFleb.
  destruct (SFcompare x y) as [[]|]; congruence.
Qed.

Lemma sf_le_lt_trans (x y z : spec_float) :
  sf_le x y -> sf_lt y z -> sf_lt x z.
Proof.
  unfold sf_le, sf_lt, SFleb, SFltb.
  destruct x as [sx|sx| |sx mx ex], y as [sy|sy| |sy my ey],
           z as [sz|sz| |sz mz ez]; simpl;
    try discriminate; try reflexivity;
    repeat match goal with s : bool |- _ => destruct s end; simpl;
    try discriminate; try reflexivity;
    intros H1 H2; cmp_cases.
Qed.

Lemma sf_eq_not_lt (x y : spec_float) :
  SFeqb x y = true -> SFltb y x = false.
Proof.
  unfold SFeqb, SFltb. rewrite (SFcompare_swap x y).
  destruct (SFcompare x y) as [[]|]; simpl; congruence.
Qed.

(** The same facts on primitive floats. *)
Lemma not_nan_num (x : float) : not_nan x = true -> sf_num (Prim2SF x).
Proof.
  unfold not_nan, PrimFloat.is_nan, sf_num. rewrite negb_involutive, eqb_spec.
  intros H E. rewrite E in H. discriminate H.
Qed.

Lemma gtb_not_leb (x m : float) :
  not_nan x = true -> not_nan m = true -> gtb x m = negb (PrimFloat.leb x m).
Proof.
  intros Hx Hm. unfold gtb. rewrite ltb_spec, leb_spec.
  apply sf_gt_not_le; now apply not_nan_num.
Qed.

Lemma leb_refl (x : float) : not_nan x = true -> PrimFloat.leb x x = true.
Proof.
  unfold not_nan, PrimFloat.is_nan. rewrite negb_involutive, eqb_spec, leb_spec.
  unfold SFeqb, SFleb. destruct (SFcompare _ _) as [[]|]; congruence.
Qed.

Lemma leb_trans (x y z : float) :
  PrimFloat.leb x y = true -> PrimFloat.leb y z = true ->
  PrimFloat.leb x z = true.
Proof. rewrite !leb_spec. apply sf_le_trans. Qed.

Lemma ltb_leb (x y : float) :
  PrimFloat.ltb x y = true -> PrimFloat.leb x y = true.
Proof. rewrite ltb_spec, leb_spec. apply sf_lt_le. Qed.

Lemma leb_ltb_trans (x y z : float) :
  PrimFloat.leb x y = true -> PrimFloat.ltb y z = true ->
  PrimFloat.ltb x z = true.
Proof. rewrite !ltb_spec, leb_spec. apply sf_le_lt_trans. Qed.

Lemma eqb_not_gtb (s m : float) :
  PrimFloat.eqb s m = true -> gtb s m = false.
Proof. unfold gtb. rewrite eqb_spec, ltb_spec. apply sf_eq_not_lt. Qed.

Lemma leb_not_gtb (s m : float) :
  PrimFloat.leb s m = true -> gtb s m = false.
Proof.
  unfold gtb. rewrite leb_spec, ltb_spec. unfold SFleb, SFltb.
  rewrite (SFcompare_swap (Prim2SF s) (Prim2SF m)).
  destruct (SFcompare (Prim2SF s) (Prim2SF m)) as [[]|]; simpl; congruence.
Qed.

End PyFloatFacts.

(** ** [max] and [np.argmax] on a list without NaN *)
Section MaxArgmax.
Import PyFloat PyFloatFacts.

Lemma py_max_from_in (xs : list float) (m : float) :
  In (py_max_from m xs) (m :: xs).
Proof.
  revert m; induction xs as [|x xs IH]; intros m; simpl.
  - now left.
  - destruct (IH (if gtb x m then x else m)) as [H|H].
    + destruct (gtb x m); [right; left | left]; exact H.
    + right; right; exact H.
Qed.

Lemma scan_invariant (xs pre : list float) (mp : float) (best : nat) :
  all_num (pre ++ xs) ->
  nth_error pre best = Some mp ->
  (forall j x, (j < best)%nat -> nth_error pre j = Some x ->
               PrimFloat.ltb x mp = true) ->
  (forall x, In x pre -> PrimFloat.leb x mp = true) ->
  let m := py_max_from mp xs in
  let i := np_argmax_from mp best (List.length pre) xs in
  nth_error (pre ++ xs) i = Some m /\
  (forall j x, (j < i)%nat -> nth_error (pre ++ xs) j = Some x ->
               PrimFloat.ltb x m = true) /\
  (forall x, In x (pre ++ xs) -> PrimFloat.leb x m = true).
Proof.
  revert pre mp best; induction xs as [|x xs IH]; intros pre mp best Hn Hb Hlt Hle.
  - simpl. rewrite app_nil_r. auto.
  - assert (Hmp : not_nan mp = true).
    { apply nth_error_In in Hb. unfold all_num in Hn. rewrite Forall_forall in Hn.
      apply Hn, in_or_app; now left. }
    assert (Hx : not_nan x = true).
    { unfold all_num in Hn. rewrite Forall_forall in Hn.
      apply Hn, in_or_app; right; now left. }
    assert (Hbl : (best < List.length pre)%nat).
    { apply nth_error_Some. congruence. }
    cbn zeta. simpl py_max_from. simpl np_argmax_from.
    assert (Hnan : PrimFloat.is_nan mp = false).
    { unfold not_nan in Hmp. now destruct (PrimFloat.is_nan mp). }
    rewrite Hnan, (gtb_not_leb x mp Hx Hmp).
    replace (pre ++ x :: xs)%list with ((pre ++ [x]) ++ xs)%list in *
      by (rewrite <- app_assoc; reflexivity).
    replace (S (List.length pre)) with (List.length (pre ++ [x])%list)
      by (rewrite length_app; simpl; lia).
    destruct (PrimFloat.leb x mp) eqn:Hxm; simpl negb; cbv iota.
    + apply IH; auto.
      * rewrite nth_error_app1 by exact Hbl. exact Hb.
      * intros j y Hj Hy. apply (Hlt j y Hj).
        rewrite nth_error_app1 in Hy by lia. exact Hy.
      * intros y Hy. apply in_app_or in Hy as [Hy|[<-|[]]]; auto.
    + assert (Hgt : PrimFloat.ltb mp x = true).
      { change (gtb x mp = true). rewrite (gtb_not_leb x mp Hx Hmp), Hxm.
        reflexivity. }
      apply IH; auto.
      * rewrite nth_error_app2 by lia. rewrite Nat.sub_diag. reflexivity.
      * intros j y Hj Hy. rewrite nth_error_app1 in Hy by exact Hj.
        apply nth_error_In in Hy.
        apply (leb_ltb_trans y mp x); auto.
      * intros y Hy. apply in_app_or in Hy as [Hy|[<-|[]]].
        -- apply ltb_leb, (leb_ltb_trans y mp x); auto.
        -- now apply leb_refl.
Qed.

(** On a history without NaN, [max] returns a greatest entry and
    [np.argmax] the first index that holds it. *)
Lemma max_argmax_spec (h : list float) (m : float) (i : nat) :
  all_num h -> py_max h = Some m -> np_argmax h = Some i ->
  nth_error h i = Some m /\
  (forall j x, (j < i)%nat -> nth_error h j = Some x ->
               PrimFloat.ltb x m = true) /\
  (forall x, In x h -> PrimFloat.leb x m = true).
Proof.
  destruct h as [|x xs]; [discriminate|].
  intros Hn Hm Hi. injection Hm as <-. injection Hi as <-.
  assert (Hx : not_nan x = true) by (now inversion Hn).
  apply (scan_invariant xs [x] x 0); simpl; auto.
  - intros j y Hj. lia.
  - intros y [<-|[]]. now apply leb_refl.
Qed.

End MaxArgmax.


(** ** Runs of the monad *)
Section Runs.
Context {T : Sorts}.

Lemma bind_inv {A B} (m : M T A) (k : A -> M T B) l d r :
  bind m k l = (d, r) ->
  (exists e, m l = (d, inl e) /\ r = inl e) \/
  (exists d1 a d2, m l = (d1, inr a) /\ k a (l ++ d1)%list = (d2, r) /\
                   d = (d1 ++ d2)%list).
Proof.
  unfold bind. destruct (m l) as [d1 [e|a]].
  - intros H; injection H as <- <-. left; eauto.
  - destruct (k a (l ++ d1)%list) as [d2 r2] eqn:Hk.
    intros H; injection H as <- <-. right; eauto 6.
Qed.

Lemma bind_inl {A B} (m : M T A) (k : A -> M T B) l d e :
  m l = (d, inl e) -> bind m k l = (d, inl e).
Proof. unfold bind; intros ->; reflexivity. Qed.

Lemma bind_inr {A B} (m : M T A) (k : A -> M T B) l d1 a d2 r :
  m l = (d1, inr a) -> k a (l ++ d1)%list = (d2, r) ->
  bind m k l = ((d1 ++ d2)%list, r).
Proof. unfold bind; intros -> ->; reflexivity. Qed.

Lemma obeys_ret {A} P X (a : A) : obeys (T:=T) P X (ret a).
Proof.
  intros l d r H; injection H as <- <-. split; [constructor | discriminate].
Qed.

Lemma obeys_raise {A} P (X : PyExn -> Prop) e : X e -> obeys (T:=T) P X (@raise T A e).
Proof.
  intros HX l d r H; injection H as <- <-.
  split; [constructor | intros e' He; injection He as <-; exact HX].
Qed.

Lemma obeys_emit (P : Event T -> Prop) X e : P e -> obeys (T:=T) P X (emit e).
Proof.
  intros HP l d r H; injection H as <- <-.
  split; [repeat constructor; exact HP | discriminate].
Qed.

Lemma obeys_call {A} (P : Event T -> Prop) X e (ans : list (Event T) -> A) :
  P e -> obeys (T:=T) P X (call e ans).
Proof.
  intros HP l d r H; injection H as <- <-.
  split; [repeat constructor; exact HP | discriminate].
Qed.

Lemma obeys_bind {A B} P X (m : M T A) (k : A -> M T B) :
  obeys (T:=T) P X m -> (forall a, obeys (T:=T) P X (k a)) -> obeys (T:=T) P X (bind m k).
Proof.
  intros Hm Hk l d r H. apply bind_inv in H as [(e & Hml & ->)|(d1 & a & d2 & Hml & Hka & ->)].
  - destruct (Hm _ _ _ Hml) as [F1 X1]. split; [exact F1|].
    intros e' He; injection He as <-. now apply X1.
  - destruct (Hm _ _ _ Hml) as [F1 _]. destruct (Hk a _ _ _ Hka) as [F2 X2].
    split; [apply Forall_app; split; assumption | exact X2].
Qed.

Lemma obeys_or_raise {A} P (X : PyExn -> Prop) e (o : option A) :
  X e -> obeys (T:=T) P X (@or_raise T A e o).
Proof.
  intros HX. destruct o; [apply obeys_ret | now apply obeys_raise].
Qed.

Lemma obeys_for_each {A S} P X (body : A -> S -> M T S) (xs : list A) :
  (forall x s, obeys (T:=T) P X (body x s)) -> forall s, obeys (T:=T) P X (for_each xs body s).
Proof.
  intros Hb. induction xs as [|x xs IH]; intros s; simpl.
  - apply obeys_ret.
  - apply obeys_bind; [apply Hb | exact IH].
Qed.

Lemma for_each_app {A S} (body : A -> S -> M T S) (xs ys : list A) s l :
  for_each (xs ++ ys) body s l =
  bind (for_each xs body s) (fun s' => for_each ys body s') l.
Proof.
  revert s l; induction xs as [|x xs IH]; intros s l; simpl.
  - unfold bind, ret. rewrite app_nil_r.
    destruct (for_each ys body s l) as [d r]. reflexivity.
  - unfold bind. destruct (body x s l) as [d1 [e|s1]]; [reflexivity|].
    rewrite IH. unfold bind.
    destruct (for_each xs body s1 (l ++ d1)%list) as [d2 [e|s2]]; [reflexivity|].
    rewrite <- !app_assoc.
    destruct (for_each ys body s2 (l ++ d1 ++ d2)%list) as [d3 r3].
    rewrite app_assoc. reflexivity.
Qed.

End Runs.

(** ** One epoch *)
Section Epoch.
Context {T : Sorts} (E : Env T).
Import PyFloat.

(** The decisions of an epoch, computed: what is emitted and how it ends. *)
Lemma epoch_decide_eq (args : Args) (epoch : Z) (s : LoopSt) (gd : Z * float)
    (l : list (Event T)) :
  epoch_decide (T:=T) args epoch s gd l =
  let sc := snd gd in
  let h := dev_score_history s in
  if negb (epoch =? 1) && is_nil h then ([], inl ValueError)
  else
    let saves := if save_cond epoch sc h
                 then [EvSave KSeq (save_name args); EvPrint MsgNewBest]
                 else [] in
    if (decay_epoch args <? epoch) && is_nil h then (saves, inl IndexError)
    else
      let chg := decay_lr args epoch sc h (current_lr s) in
      ((saves ++ match chg with Some x => [EvChangeLr x] | None => [] end
              ++ [EvPrint MsgBlank])%list,
       inr (mkLoop (fst gd)
              (match chg with Some x => x | None => current_lr s end)
              (h ++ [sc])%list)).
Proof.
  destruct s as [g c h]. unfold epoch_decide, save_best, lr_schedule, save_cond,
    decay_lr, bind, or_raise, ret, raise, emit, print.
  cbn [dev_score_history current_lr global_step].
  destruct h as [|x xs]; cbn [py_max py_last is_nil];
    destruct (epoch =? 1); destruct (decay_epoch args <? epoch); cbn;
    repeat (match goal with
            | |- context [if ?b then _ else _] => destruct b
            end; cbn);
    reflexivity.
Qed.

Lemma obeys_weaken {A} (P : Event T -> Prop) (X Y : PyExn -> Prop) (m : M T A) :
  (forall x, X x -> Y x) -> obeys (T:=T) P X m -> obeys (T:=T) P Y m.
Proof.
  intros HXY Hm l d r H. destruct (Hm l d r H) as [F HX]. split; auto.
Qed.

Lemma update_step_obeys args ms epoch c b s :
  obeys (T:=T) quietP loss_exn (update_step E args ms epoch c b s).
Proof.
  unfold update_step, py_mod, print.
  apply obeys_bind; [apply obeys_call; reflexivity|]. intros loss.
  apply obeys_bind.
  - destruct (log_step args =? 0);
      [apply obeys_raise; now left | apply obeys_ret].
  - intros r. apply obeys_bind; [|intros; apply obeys_ret].
    destruct (r =? 0); [apply obeys_emit; reflexivity | apply obeys_ret].
Qed.

Lemma predict_step_obeys b ps :
  obeys (T:=T) quietP never (predict_step E b ps).
Proof.
  unfold predict_step.
  apply obeys_bind; [apply obeys_call; reflexivity|]. intros; apply obeys_ret.
Qed.

Lemma write_and_score_obeys d ps f g :
  obeys (T:=T) quietP never (write_and_score E d ps f g).
Proof.
  unfold write_and_score.
  apply obeys_bind; [apply obeys_emit; reflexivity|]. intros _.
  apply obeys_bind; [apply obeys_call; reflexivity|]. intros; apply obeys_ret.
Qed.

Lemma avg_loss_obeys tl n b :
  obeys (T:=T) quietP loss_exn (avg_loss (T:=T) tl n b).
Proof.
  unfold avg_loss.
  apply obeys_bind; [apply obeys_or_raise; now right|]. intros x.
  apply obeys_bind.
  - destruct (PrimFloat.eqb x 0); [apply obeys_raise; now left | apply obeys_ret].
  - intros _. apply obeys_bind; [apply obeys_or_raise; now right|].
    intros; apply obeys_ret.
Qed.

(** The first part of an epoch either stops on the loss arithmetic, having
    emitted quiet events only, or ends with the summary line of the epoch. *)
Lemma epoch_measure_cases args tb db spf gold ms epoch s l d r :
  epoch_measure E args tb db spf gold ms epoch s l = (d, r) ->
  (Forall quietP d /\ exists x, r = inl x /\ loss_exn x) \/
  (exists pre tl gd,
     d = (pre ++ [EvPrint (MsgEpoch epoch tl (snd gd))])%list /\
     Forall quietP pre /\ r = inr gd).
Proof.
  unfold epoch_measure. intros H.
  apply bind_inv in H as [(x & H1 & ->)|(d1 & gl & r1 & H1 & Ha & ->)];
    pose proof (obeys_for_each quietP loss_exn _ _
                  (update_step_obeys args ms epoch (current_lr s)) _ _ _ _ H1)
      as [F1 X1].
  { left; split; [exact F1 | eauto]. }
  apply bind_inv in Ha as [(x & H2 & ->)|(d2 & [] & r2 & H2 & Hb & ->)];
    [discriminate H2|].
  injection H2 as <-.
  apply bind_inv in Hb as [(x & H3 & ->)|(d3 & dp & r3 & H3 & Hc & ->)];
    pose proof (obeys_for_each quietP never _ _ (predict_step_obeys) _ _ _ _ H3)
      as [F3 X3].
  { destruct (X3 x eq_refl). }
  apply bind_inv in Hc as [(x & H4 & ->)|(d4 & sc & r4 & H4 & Hd & ->)];
    pose proof (write_and_score_obeys _ _ _ _ _ _ _ H4) as [F4 X4].
  { destruct (X4 x eq_refl). }
  apply bind_inv in Hd as [(x & H5 & ->)|(d5 & tl & r5 & H5 & He & ->)];
    pose proof (avg_loss_obeys _ _ _ _ _ _ H5) as [F5 X5].
  { left; split; [|eauto].
    repeat (apply Forall_app; split); auto. repeat constructor. }
  unfold print, emit, bind, ret in He. injection He as <- <-.
  right. exists (d1 ++ [EvPrint MsgEvaluatingDev] ++ d3 ++ d4 ++ d5)%list, tl, (fst gl, sc).
  split; [|split; [|reflexivity]].
  - cbn [snd]. rewrite <- !app_assoc. reflexivity.
  - repeat (apply Forall_app; split); auto. repeat constructor.
Qed.

Lemma update_loop_total args ms epoch c xs s l :
  log_step args <> 0 ->
  exists d s', for_each xs (update_step E args ms epoch c) s l = (d, inr s').
Proof.
  intros Hls. revert s l; induction xs as [|x xs IH]; intros s l; simpl.
  - eexists _, _; reflexivity.
  - assert (Hb : exists d1 s1, update_step E args ms epoch c x s l = (d1, inr s1)).
    { unfold update_step, py_mod, bind, call, print, emit, ret, raise.
      destruct (log_step args =? 0) eqn:H0; [apply Z.eqb_eq in H0; contradiction|].
      destruct (_ mod _ =? 0); eexists _, _; reflexivity. }
    destruct Hb as (d1 & s1 & Hb). destruct (IH s1 (l ++ d1)%list) as (d2 & s2 & H2).
    eexists _, _. eapply bind_inr; eassumption.
Qed.

Lemma predict_loop_total xs ps l :
  exists d ps', for_each xs (predict_step E) ps l = (d, inr ps').
Proof.
  revert ps l; induction xs as [|x xs IH]; intros ps l; simpl.
  - eexists _, _; reflexivity.
  - destruct (IH (ps ++ predict_ans E (l ++ [EvPredict x]))%list
                 (l ++ [EvPredict x])%list) as (d2 & s2 & H2).
    eexists _, _. eapply bind_inr; [reflexivity | exact H2].
Qed.

(** With the loss arithmetic defined, the first part of an epoch returns. *)
Lemma epoch_measure_total args tb db spf gold ms epoch s l :
  loss_computable args tb ->
  exists d gd, epoch_measure E args tb db spf gold ms epoch s l = (d, inr gd).
Proof.
  intros (Hls & n & b & Hn & Hn0 & Hb). unfold epoch_measure.
  destruct (update_loop_total args ms epoch (current_lr s) (batches tb)
              (global_step s, 0%float) l Hls) as (d1 & gl & H1).
  destruct (predict_loop_total (batches db) []
              ((l ++ d1) ++ [EvPrint MsgEvaluatingDev])%list) as (d3 & dp & H3).
  eexists _, _.
  eapply bind_inr; [exact H1|].
  eapply bind_inr; [reflexivity|].
  eapply bind_inr; [exact H3|].
  eapply bind_inr; [reflexivity|].
  eapply bind_inr.
  { unfold avg_loss, bind, or_raise, ret, raise. rewrite Hn, Hb. cbn.
    rewrite Hn0. reflexivity. }
  reflexivity.
Qed.

End Epoch.

(** ** Reading the records of a log *)
Section RecordFacts.
Context {T : Sorts}.

Lemma epoch_records_cons (e : Event T) (d : list (Event T)) :
  epoch_records (e :: d) =
  match e with
  | EvPrint (MsgEpoch ep _ sc) =>
      [mkRec ep sc (existsb is_seq_save (until_summary d))
         (first_lr_change (until_summary d))]
  | _ => []
  end ++ epoch_records d.
Proof. destruct e as [| | | |[]| | | | | | | | | | | | | | | |]; reflexivity. Qed.

Lemma is_summary_records (e : Event T) (d : list (Event T)) :
  is_summary e = false -> epoch_records (e :: d) = epoch_records d.
Proof.
  destruct e as [| | | |[]| | | | | | | | | | | | | | | |];
    try reflexivity; discriminate.
Qed.

Lemma quiet_parts (e : Event T) :
  quiet e = true ->
  is_summary e = false /\ is_seq_save e = false /\ lr_change e = None.
Proof.
  unfold quiet. destruct (is_summary e), (is_seq_save e), (lr_change e);
    simpl; intros H; try discriminate H; auto.
Qed.

Lemma no_summary_until (d : list (Event T)) :
  no_summary d -> until_summary d = d /\ epoch_records d = [].
Proof.
  induction 1 as [|e d He _ [IH1 IH2]]; [split; reflexivity|].
  split; [simpl; now rewrite He, IH1|].
  rewrite (is_summary_records e d He). exact IH2.
Qed.

Lemma quiet_no_summary (d : list (Event T)) :
  Forall (fun e => quiet e = true) d -> no_summary d.
Proof.
  apply Forall_impl. intros e He. now apply quiet_parts in He.
Qed.

Lemma quiet_flags (d : list (Event T)) :
  Forall (fun e => quiet e = true) d ->
  existsb is_seq_save d = false /\ first_lr_change d = None.
Proof.
  induction 1 as [|e d He _ [IH1 IH2]]; simpl; [auto|].
  apply quiet_parts in He as (_ & -> & ->). auto.
Qed.

Lemma until_summary_app (d1 d2 : list (Event T)) :
  until_summary (d1 ++ d2) = until_summary d1 \/
  until_summary (d1 ++ d2) = (until_summary d1 ++ until_summary d2)%list.
Proof.
  induction d1 as [|e d1 IH]; simpl.
  - now right.
  - destruct (is_summary e); [now left|].
    destruct IH as [-> | ->]; [now left | now right].
Qed.

Lemma first_lr_change_app (d1 d2 : list (Event T)) :
  first_lr_change d2 = None ->
  first_lr_change (d1 ++ d2) = first_lr_change d1.
Proof.
  intros H2. induction d1 as [|e d1 IH]; simpl; [exact H2|].
  destruct (lr_change e); [reflexivity | exact IH].
Qed.

Lemma flags_app (d1 d2 : list (Event T)) :
  quiet_head d2 ->
  existsb is_seq_save (until_summary (d1 ++ d2)) =
    existsb is_seq_save (until_summary d1) /\
  first_lr_change (until_summary (d1 ++ d2)) =
    first_lr_change (until_summary d1).
Proof.
  intros [Hs Hl]. destruct (until_summary_app d1 d2) as [-> | ->]; [auto|].
  rewrite existsb_app, Hs, orb_false_r, (first_lr_change_app _ _ Hl). auto.
Qed.

Lemma records_app (d1 d2 : list (Event T)) :
  quiet_head d2 ->
  epoch_records (d1 ++ d2) = (epoch_records d1 ++ epoch_records d2)%list.
Proof.
  intros Hq. induction d1 as [|e d1 IH]; [reflexivity|].
  rewrite <- app_comm_cons, !epoch_records_cons, IH, <- app_assoc.
  destruct (flags_app d1 d2 Hq) as [-> ->]. reflexivity.
Qed.

Lemma quiet_head_app (d1 d2 : list (Event T)) :
  quiet_head d1 -> quiet_head d2 -> quiet_head (d1 ++ d2).
Proof.
  intros [Hs1 Hl1] [Hs2 Hl2]. split.
  - destruct (until_summary_app d1 d2) as [-> | ->]; [exact Hs1|].
    now rewrite existsb_app, Hs1, Hs2.
  - destruct (until_summary_app d1 d2) as [-> | ->]; [exact Hl1|].
    now rewrite (first_lr_change_app _ _ Hl2).
Qed.

Lemma quiet_head_summary (pre post : list (Event T)) e tl sc :
  Forall (fun e => quiet e = true) pre ->
  quiet_head (pre ++ EvPrint (MsgEpoch e tl sc) :: post).
Proof.
  intros Hq. induction Hq as [|x pre Hx _ IH].
  - split; reflexivity.
  - apply quiet_parts in Hx as (Hx & Hs & Hl). destruct IH as [IH1 IH2].
    unfold quiet_head. simpl. rewrite Hx. simpl. rewrite Hs, Hl. auto.
Qed.

Lemma quiet_head_quiet (d : list (Event T)) :
  Forall (fun e => quiet e = true) d -> quiet_head d.
Proof.
  intros Hq. destruct (no_summary_until d (quiet_no_summary d Hq)) as [Hu _].
  unfold quiet_head. rewrite Hu. now apply quiet_flags.
Qed.

(** The records of one epoch's events. *)
Lemma records_one_epoch (pre post : list (Event T)) e tl sc :
  Forall (fun e => quiet e = true) pre -> no_summary post ->
  epoch_records (pre ++ EvPrint (MsgEpoch e tl sc) :: post) =
  [mkRec e sc (existsb is_seq_save post) (first_lr_change post)].
Proof.
  intros Hq Hp.
  rewrite records_app by (apply (quiet_head_summary [] post); constructor).
  destruct (no_summary_until pre (quiet_no_summary pre Hq)) as [_ ->].
  destruct (no_summary_until post Hp) as [Hu Hr].
  simpl. now rewrite Hu, Hr.
Qed.

End RecordFacts.

(** ** The epoch loop *)
Section Loop.
Context {T : Sorts} (E : Env T).
Variables (args : Args) (tb db : Loader T) (spf : string) (gold : option string)
          (ms : Z).
Import PyFloat.

Local Notation "'body'" := (epoch_body E args tb db spf gold ms).

(** An epoch is the first part followed by the decisions. *)
Lemma body_after_measure e s l d1 gd :
  epoch_measure E args tb db spf gold ms e s l = (d1, inr gd) ->
  body e s l =
  ((d1 ++ fst (epoch_decide (T:=T) args e s gd (l ++ d1)))%list,
   snd (epoch_decide (T:=T) args e s gd (l ++ d1))).
Proof.
  intros H. unfold epoch_body.
  destruct (epoch_decide (T:=T) args e s gd (l ++ d1)) as [d2 r2] eqn:H2.
  exact (bind_inr _ _ _ _ _ _ _ H H2).
Qed.

(** What one epoch emits and how it ends. *)
Lemma body_cases e s l d r :
  body e s l = (d, r) ->
  (Forall (quietP (T:=T)) d /\ exists x, r = inl x /\ loss_exn x) \/
  (exists pre tl sc post,
     d = (pre ++ EvPrint (MsgEpoch e tl sc) :: post)%list /\
     Forall (quietP (T:=T)) pre /\ no_summary post /\
     existsb is_seq_save post = save_cond e sc (dev_score_history s) /\
     first_lr_change post =
       decay_lr args e sc (dev_score_history s) (current_lr s) /\
     ((exists s', r = inr s' /\
         dev_score_history s' = (dev_score_history s ++ [sc])%list /\
         current_lr s' =
           next_lr (current_lr s)
             (decay_lr args e sc (dev_score_history s) (current_lr s))) \/
      (r = inl ValueError /\ e <> 1 /\ dev_score_history s = []) \/
      (r = inl IndexError /\ decay_epoch args < e /\
       dev_score_history s = []))).
Proof.
  unfold epoch_body. intros H.
  apply bind_inv in H as [(x & H1 & ->)|(d1 & gd & d2 & H1 & H2 & ->)];
    apply epoch_measure_cases in H1
      as [(F & y & Hy & Hl)|(pre & tl & gd' & -> & F & Hr)];
    try discriminate.
  { injection Hy as <-. left; eauto. }
  injection Hr as <-. right.
  rewrite epoch_decide_eq in H2. cbv zeta in H2.
  exists pre, tl, (snd gd), d2. rewrite <- app_assoc. split; [reflexivity|].
  split; [exact F|].
  destruct (dev_score_history s) as [|h0 hs] eqn:Hh.
  - (* empty history *)
    unfold save_cond, decay_lr in *. cbn [py_max py_last is_nil] in *.
    rewrite orb_false_r, andb_true_r in *.
    destruct (e =? 1) eqn:He1; cbn [negb] in H2.
    + apply Z.eqb_eq in He1.
      destruct (decay_epoch args <? e) eqn:Hde; injection H2 as <- <-.
      * apply Z.ltb_lt in Hde.
        repeat split; try (repeat constructor; fail); auto.
      * repeat split; try (repeat constructor; fail).
        left. eexists; repeat split; reflexivity.
    + apply Z.eqb_neq in He1. injection H2 as <- <-.
      repeat split; try (repeat constructor; fail);
        [now destruct (decay_epoch args <? e)|auto].
  - (* a history with entries *)
    cbn [is_nil] in H2. rewrite !andb_false_r in H2. injection H2 as <- <-.
    destruct (save_cond e (snd gd) (h0 :: hs));
      destruct (decay_lr args e (snd gd) (h0 :: hs) (current_lr s));
      (split; [repeat constructor|]); (split; [reflexivity|]);
      (split; [reflexivity|]); left; eexists; repeat split; reflexivity.
Qed.

(** The records of a run of the loop over the epochs [eps] follow the two
    decision rules, and a run that returns has appended one score per
    epoch. *)
Lemma loop_records eps : forall s l d r,
  for_each eps body s l = (d, r) ->
  quiet_head d /\
  records_follow args eps (dev_score_history s) (current_lr s)
    (epoch_records d) /\
  (List.length (epoch_records d) <= List.length eps)%nat /\
  (forall s', r = inr s' ->
     dev_score_history s' =
       (dev_score_history s ++ map rec_score (epoch_records d))%list /\
     List.length (epoch_records d) = List.length eps /\
     current_lr s' = lr_in_force (current_lr s) (epoch_records d)).
Proof.
  induction eps as [|e eps IH]; intros s l d r H.
  - injection H as <- <-. split; [split; reflexivity|].
    split; [exact I|]. split; [simpl; lia|].
    intros s' Hs; injection Hs as <-. simpl. rewrite app_nil_r. auto.
  - simpl in H.
    apply bind_inv in H as [(x & H1 & ->)|(d1 & s1 & d2 & H1 & H2 & ->)];
      apply body_cases in H1
        as [(F & y & Hy & Hl)
           |(pre & tl & sc & post & -> & F & Hp & Hsv & Hlr & Hres)];
      try discriminate.
    + (* the epoch stopped before its summary line *)
      destruct (no_summary_until d (quiet_no_summary d F)) as [_ Hr].
      rewrite Hr. split; [now apply quiet_head_quiet|].
      split; [exact I|]. split; [simpl; lia|intros s' Hs'; discriminate Hs'].
    + (* the epoch stopped after its summary line *)
      rewrite (records_one_epoch pre post e tl sc F Hp).
      split; [now apply quiet_head_summary|].
      split; [simpl; rewrite Hsv, Hlr; repeat (split; try reflexivity); exact I|].
      split; [simpl; lia|intros s' Hs'; discriminate Hs'].
    + (* the epoch returned *)
      destruct Hres as [(s1' & Hs1 & Hh & Hc)|[(Hx & _)|(Hx & _)]];
        try discriminate.
      injection Hs1 as <-.
      destruct (IH _ _ _ _ H2) as (Q2 & R2 & L2 & S2).
      rewrite (records_app _ _ Q2), (records_one_epoch pre post e tl sc F Hp).
      split; [apply quiet_head_app; [now apply quiet_head_summary|exact Q2]|].
      split.
      { cbn [app records_follow rec_epoch rec_saved rec_lr rec_score].
        rewrite Hsv, Hlr. repeat split; auto.
        rewrite Hh, Hc in R2. exact R2. }
      split; [simpl; lia|].
      intros s' Hs'. destruct (S2 s' Hs') as (Sh & Sl & Sc).
      cbn [app map rec_score List.length lr_in_force rec_lr].
      rewrite Sh, Hh, <- app_assoc, Sc, Hc, Sl, Hlr. auto.
Qed.

(** A loop raises [ValueError] or [IndexError] only in its first epoch and
    on an empty history. *)
Lemma loop_raises eps : forall s l d x,
  for_each eps body s l = (d, inl x) ->
  loss_exn x \/
  (dev_score_history s = [] /\
   exists e eps', eps = e :: eps' /\
     ((x = ValueError /\ e <> 1) \/ (x = IndexError /\ decay_epoch args < e))).
Proof.
  induction eps as [|e eps IH]; intros s l d x H; [discriminate H|].
  simpl in H.
  apply bind_inv in H as [(y & H1 & Hy)|(d1 & s1 & d2 & H1 & H2 & ->)];
    apply body_cases in H1
      as [(F & z & Hz & Hl)
         |(pre & tl & sc & post & _ & _ & _ & _ & _ & Hres)];
    try discriminate.
  - injection Hy as <-. injection Hz as <-. now left.
  - injection Hy as <-.
    destruct Hres as [(s' & Hs' & _)|[(Hx & He & Hh)|(Hx & He & Hh)]];
      [discriminate| |]; injection Hx as <-; right; eauto 8.
  - destruct Hres as [(s' & Hs' & Hh & _)|[(Hx & _)|(Hx & _)]];
      try discriminate.
    injection Hs' as <-.
    destruct (IH _ _ _ _ H2) as [Hl|(Hnil & _)]; [now left|].
    rewrite Hh in Hnil. now destruct (dev_score_history s).
Qed.

(** With the loss arithmetic defined and a decay start of at least 1, the
    loop over the epochs [j+1 .. j+k], entered with [j] scores in the
    history, returns. *)
Lemma loop_total k : forall j s l,
  loss_computable args tb -> 1 <= decay_epoch args ->
  List.length (dev_score_history s) = j ->
  exists d s',
    for_each (map (fun i => 1 + Z.of_nat i) (seq j k)) body s l = (d, inr s').
Proof.
  induction k as [|k IH]; intros j s l Hlc Hde Hj.
  - eexists _, _; reflexivity.
  - cbn [seq map for_each].
    destruct (epoch_measure_total E args tb db spf gold ms
                (1 + Z.of_nat j) s l Hlc) as (d1 & gd & Hm).
    pose proof (body_after_measure _ _ _ _ _ Hm) as Hb.
    rewrite epoch_decide_eq in Hb. cbv zeta in Hb.
    assert (Hg1 : negb (1 + Z.of_nat j =? 1) && is_nil (dev_score_history s)
                  = false).
    { destruct (dev_score_history s); [|now rewrite andb_false_r].
      simpl in Hj; subst j. reflexivity. }
    assert (Hg2 : (decay_epoch args <? 1 + Z.of_nat j)
                  && is_nil (dev_score_history s) = false).
    { destruct (dev_score_history s); [|now rewrite andb_false_r].
      simpl in Hj; subst j. rewrite andb_true_r. apply Z.ltb_ge. lia. }
    rewrite Hg1, Hg2 in Hb. cbn [fst snd] in Hb.
    match type of Hb with _ = (?d, inr ?s1) =>
      destruct (IH (S j) s1 (l ++ d)%list Hlc Hde) as (d2 & s2 & H2)
    end.
    { cbn [dev_score_history]. rewrite length_app, Hj. simpl. lia. }
    eexists _, _. eapply bind_inr; [exact Hb | exact H2].
Qed.

End Loop.

(** ** [range] *)
Section Range.

Lemma py_range_shape (n : Z) :
  py_range 1 (n + 1) = map (fun i => 1 + Z.of_nat i) (seq 0 (Z.to_nat n)).
Proof. unfold py_range. do 2 f_equal. lia. Qed.

Lemma py_range_nth (n : Z) (i : nat) (e : Z) :
  nth_error (py_range 1 (n + 1)) i = Some e -> e = Z.of_nat i + 1.
Proof.
  rewrite py_range_shape, nth_error_map.
  destruct (nth_error (seq 0 (Z.to_nat n)) i) as [j|] eqn:Hj; [|discriminate].
  intros H. assert (He : e = 1 + Z.of_nat j) by (cbn [option_map] in H; congruence).
  assert (Hi : (i < List.length (seq 0 (Z.to_nat n)))%nat)
    by (apply nth_error_Some; congruence).
  rewrite length_seq in Hi.
  apply (nth_error_nth _ _ 0%nat) in Hj. rewrite seq_nth in Hj by exact Hi.
  lia.
Qed.

Lemma py_range_head (n : Z) :
  1 <= n -> exists eps, py_range 1 (n + 1) = 1 :: eps.
Proof.
  intros Hn. rewrite py_range_shape.
  destruct (Z.to_nat n) as [|k] eqn:Hk; [lia|].
  eexists; reflexivity.
Qed.

Lemma py_range_length (n : Z) :
  List.length (py_range 1 (n + 1)) = Z.to_nat n.
Proof. now rewrite py_range_shape, length_map, length_seq. Qed.

Lemma py_range_last (n : Z) :
  1 <= n -> last (map Some (py_range 1 (n + 1))) None = Some n.
Proof.
  intros Hn. rewrite py_range_shape.
  replace (Z.to_nat n) with (Z.to_nat (n - 1) + 1)%nat by lia.
  rewrite seq_app, !map_app. cbn [seq map]. rewrite last_last.
  f_equal. lia.
Qed.

Lemma py_range_split (n k : Z) :
  0 <= k <= n ->
  py_range 1 (n + 1) =
  (py_range 1 (k + 1) ++
   map (fun i => 1 + Z.of_nat i) (seq (Z.to_nat k) (Z.to_nat (n - k))))%list.
Proof.
  intros Hk. rewrite !py_range_shape, <- map_app. f_equal.
  replace (Z.to_nat n) with (Z.to_nat k + Z.to_nat (n - k))%nat by lia.
  now rewrite seq_app.
Qed.

End Range.

(** ** The claims on the epoch loop *)
Section LoopClaims.
Context {T : Sorts} (E : Env T).
Variables (args : Args) (tb db : Loader T) (spf : string) (gold : option string).
Import PyFloat PyFloatFacts.

(** What [records_follow] says of the record at index [i]. *)
Lemma records_follow_nth (rs : list EpochRec) : forall eps h c i r,
  records_follow args eps h c rs -> nth_error rs i = Some r ->
  exists e,
    nth_error eps i = Some e /\ rec_epoch r = e /\
    rec_saved r = save_cond e (rec_score r)
                    (h ++ map rec_score (firstn i rs)) /\
    rec_lr r = decay_lr args e (rec_score r)
                 (h ++ map rec_score (firstn i rs))
                 (lr_in_force c (firstn i rs)).
Proof.
  induction rs as [|r0 rs IH]; intros eps h c i r Hf Hn.
  - destruct i; discriminate Hn.
  - destruct eps as [|e eps]; [destruct Hf|].
    destruct Hf as (He & Hs & Hl & Hrest). destruct i as [|i].
    + injection Hn as <-. exists e. cbn [firstn map lr_in_force nth_error].
      rewrite app_nil_r. auto.
    + cbn [nth_error] in Hn.
      destruct (IH _ _ _ _ _ Hrest Hn) as (e' & H1 & H2 & H3 & H4).
      exists e'. cbn [firstn map lr_in_force nth_error].
      rewrite <- app_assoc in H3, H4. auto.
Qed.

(** The records of the loop, at an index. *)
Lemma epoch_loop_record (l0 : list (Event T)) (i : nat) (r : EpochRec) :
  let rs := epoch_records (fst (epoch_loop E args tb db spf gold l0)) in
  nth_error rs i = Some r ->
  rec_epoch r = Z.of_nat i + 1 /\
  rec_saved r = save_cond (rec_epoch r) (rec_score r)
                  (map rec_score (firstn i rs)) /\
  rec_lr r = decay_lr args (rec_epoch r) (rec_score r)
               (map rec_score (firstn i rs))
               (lr_in_force (lr args) (firstn i rs)).
Proof.
  intros rs Hn. subst rs. unfold epoch_loop in *.
  destruct (for_each _ _ _ l0) as [d r0] eqn:Hrun. cbn [fst] in *.
  destruct (loop_records E args tb db spf gold _ _ _ _ _ _ Hrun)
    as (_ & Hf & _ & _).
  destruct (records_follow_nth _ _ _ _ _ _ Hf Hn) as (e & He & Hr & Hs & Hl).
  apply py_range_nth in He. cbn [dev_score_history current_lr app] in *.
  rewrite Hr. subst e. auto.
Qed.

Lemma firstn_scores_length (rs : list EpochRec) (i : nat) (r : EpochRec) :
  nth_error rs i = Some r ->
  List.length (map rec_score (firstn i rs)) = i.
Proof.
  intros Hn. rewrite length_map, length_firstn.
  assert (i < List.length rs)%nat by (apply nth_error_Some; congruence). lia.
Qed.

(** C1.  In a run of the seq2seq training loop, read from its log: the
    record of index [i] is that of epoch [i+1]; [Trainer.save] was called in
    that epoch if and only if it is epoch 1 or its dev score is strictly
    greater than [max] of the dev scores of the epochs before it; a score
    equal to that maximum triggers no save; and, the scores not being NaN,
    a later epoch saves exactly when its score is strictly greater than
    every earlier score. *)
Theorem checkpoint_iff_strict_improvement
    (l0 : list (Event T)) (i : nat) (r : EpochRec) :
  let rs := epoch_records (fst (epoch_loop E args tb db spf gold l0)) in
  let prev := map rec_score (firstn i rs) in
  nth_error rs i = Some r ->
  rec_epoch r = Z.of_nat i + 1 /\
  (rec_saved r = true <->
   rec_epoch r = 1 \/
   exists m, py_max prev = Some m /\ PrimFloat.ltb m (rec_score r) = true) /\
  (forall m, rec_epoch r <> 1 -> py_max prev = Some m ->
             PrimFloat.eqb (rec_score r) m = true -> rec_saved r = false) /\
  (all_num (rec_score r :: prev) -> rec_epoch r <> 1 ->
   (rec_saved r = true <->
    forall x, In x prev -> PrimFloat.ltb x (rec_score r) = true)).
Proof.
  intros rs prev Hn.
  destruct (epoch_loop_record l0 i r Hn) as (He & Hs & _).
  fold rs in Hs. fold prev in Hs. unfold save_cond in Hs.
  split; [exact He|]. split; [|split].
  - rewrite Hs. split.
    + intros H. apply orb_true_iff in H as [H|H].
      * left. now apply Z.eqb_eq.
      * right. destruct (py_max prev) as [m|]; [|discriminate].
        exists m. auto.
    + intros [H|(m & Hm & Hlt)]; apply orb_true_iff.
      * left. now apply Z.eqb_eq.
      * right. now rewrite Hm.
  - intros m Hne Hm Heq. rewrite Hs, Hm.
    apply Z.eqb_neq in Hne. rewrite Hne. cbn [orb].
    now apply eqb_not_gtb.
  - intros Hnum Hne.
    assert (Hlen : List.length prev = i)
      by (apply (firstn_scores_length rs i r Hn)).
    assert (Hnum' : all_num prev) by (now inversion Hnum).
    destruct prev as [|p ps] eqn:Hprev.
    { simpl in Hlen. subst i. simpl in He. contradiction. }
    destruct (max_argmax_spec (p :: ps) (py_max_from p ps)
                (np_argmax_from p 0 1 ps) Hnum' eq_refl eq_refl)
      as (_ & _ & Hub).
    rewrite Hs. apply Z.eqb_neq in Hne. rewrite Hne. cbn [orb py_max].
    unfold gtb. split.
    + intros Hlt x Hx. apply (leb_ltb_trans x (py_max_from p ps)); auto.
    + intros Hall. apply Hall, py_max_from_in.
Qed.

(** C2.  In a run of the seq2seq training loop, read from its log:
    [Trainer.change_lr] was called in the epoch of index [i] if and only if
    the epoch number is strictly greater than [decay_epoch] and the dev
    score of the epoch is less than or equal to the dev score of the epoch
    just before it (the last entry of the history, not its maximum); the
    rate it was given is the rate in force times [lr_decay]. *)
Theorem lr_decays_iff_not_better_than_previous
    (l0 : list (Event T)) (i : nat) (r : EpochRec) :
  let rs := epoch_records (fst (epoch_loop E args tb db spf gold l0)) in
  let decays :=
    decay_epoch args < rec_epoch r /\
    exists j q, i = S j /\ nth_error rs j = Some q /\
                PrimFloat.leb (rec_score r) (rec_score q) = true in
  nth_error rs i = Some r ->
  py_last (map rec_score (firstn i rs)) =
    match i with
    | O => None
    | S j => option_map rec_score (nth_error rs j)
    end /\
  ((decays /\
    rec_lr r = Some (lr_in_force (lr args) (firstn i rs) * lr_decay args)%float)
   \/ (~ decays /\ rec_lr r = None)).
Proof.
  intros rs decays Hn.
  destruct (epoch_loop_record l0 i r Hn) as (He & _ & Hl). fold rs in Hl.
  assert (Hlast : py_last (map rec_score (firstn i rs)) =
                  match i with
                  | O => None
                  | S j => option_map rec_score (nth_error rs j)
                  end).
  { destruct i as [|j]; [reflexivity|].
    assert (Hj : (j < List.length rs)%nat).
    { assert (S j < List.length rs)%nat by (apply nth_error_Some; congruence).
      lia. }
    destruct (nth_error rs j) as [q|] eqn:Hq;
      [|apply nth_error_None in Hq; lia].
    replace (firstn (S j) rs) with (firstn j rs ++ [q])%list.
    - rewrite map_app. cbn [map option_map].
      destruct (map rec_score (firstn j rs)) as [|x xs]; [reflexivity|].
      cbn [app py_last]. now rewrite last_last.
    - clear -Hq. revert j Hq. induction rs as [|a rs' IH]; intros j Hq.
      + destruct j; discriminate.
      + destruct j as [|j]; [injection Hq as <-; reflexivity|].
        cbn [nth_error] in Hq. change (firstn (S (S j)) (a :: rs'))
          with (a :: firstn (S j) rs').
        rewrite <- (IH j Hq). reflexivity. }
  split; [exact Hlast|].
  unfold decay_lr in Hl. rewrite Hlast in Hl.
  destruct (decay_epoch args <? rec_epoch r) eqn:Hde.
  - apply Z.ltb_lt in Hde. destruct i as [|j].
    + right. split; [|exact Hl]. intros (_ & j & q & Hj & _). discriminate.
    + destruct (nth_error rs j) as [q|] eqn:Hq; cbn [option_map] in Hl.
      * destruct (PrimFloat.leb (rec_score r) (rec_score q)) eqn:Hle.
        -- left. split; [|exact Hl]. split; [exact Hde|]. eauto.
        -- right. split; [|exact Hl].
           intros (_ & j' & q' & Hj & Hq' & Hle').
           injection Hj as <-. congruence.
      * right. split; [|exact Hl].
        intros (_ & j' & q' & Hj & Hq' & _). injection Hj as <-. congruence.
  - right. split; [|exact Hl]. apply Z.ltb_ge in Hde.
    intros (Hlt & _). lia.
Qed.

End LoopClaims.

Section HistoryClaims.
Context {T : Sorts} (E : Env T).
Variables (args : Args) (tb db : Loader T) (spf : string) (gold : option string).
Import PyFloat PyFloatFacts.

Local Notation "'body'" :=
  (epoch_body E args tb db spf gold (loader_len tb * num_epoch args)).
Local Notation "'start'" := (mkLoop 0 (lr args) []).

(** The loop over the first [k] epochs returns when the whole loop does,
    with the first [k] scores of the final history. *)
Lemma history_prefix (l0 d : list (Event T)) (s : LoopSt) (k : Z) :
  epoch_loop E args tb db spf gold l0 = (d, inr s) ->
  0 <= k <= num_epoch args ->
  exists dk sk,
    for_each (py_range 1 (k + 1)) body start l0 = (dk, inr sk) /\
    dev_score_history sk = firstn (Z.to_nat k) (dev_score_history s) /\
    List.length (dev_score_history sk) = Z.to_nat k.
Proof.
  unfold epoch_loop. intros Hrun Hk.
  rewrite (py_range_split (num_epoch args) k Hk), for_each_app in Hrun.
  apply bind_inv in Hrun as [(x & _ & Hx)|(dk & sk & d2 & Hk1 & Hk2 & ->)];
    [discriminate|].
  exists dk, sk. split; [exact Hk1|].
  destruct (loop_records E args tb db spf gold _ _ _ _ _ _ Hk1)
    as (_ & _ & _ & S1). destruct (S1 sk eq_refl) as (Hh1 & Hl1 & _).
  destruct (loop_records E args tb db spf gold _ _ _ _ _ _ Hk2)
    as (_ & _ & _ & S2). destruct (S2 s eq_refl) as (Hh2 & _ & _).
  cbn [dev_score_history app] in Hh1.
  assert (Hlen : List.length (dev_score_history sk) = Z.to_nat k).
  { rewrite Hh1, length_map, Hl1. apply py_range_length. }
  split; [|exact Hlen].
  rewrite Hh2, <- Hlen, firstn_app, Nat.sub_diag, firstn_all.
  cbn [firstn]. now rewrite app_nil_r.
Qed.

(** When the loop returns, the history holds one score per epoch, those of
    the summary lines. *)
Lemma epoch_loop_history (l0 d : list (Event T)) (s : LoopSt) :
  epoch_loop E args tb db spf gold l0 = (d, inr s) ->
  List.length (dev_score_history s) = Z.to_nat (num_epoch args) /\
  dev_score_history s = map rec_score (epoch_records d).
Proof.
  intros Hrun. unfold epoch_loop in Hrun.
  destruct (loop_records E args tb db spf gold _ _ _ _ _ _ Hrun)
    as (_ & _ & _ & S1). destruct (S1 s eq_refl) as (Hh & Hl & _).
  cbn [dev_score_history app] in Hh. split; [|exact Hh].
  rewrite Hh, length_map, Hl. apply py_range_length.
Qed.

(** The loop returns when the loss arithmetic is defined and the decay
    start is at least 1. *)
Lemma epoch_loop_returns (l0 : list (Event T)) :
  loss_computable args tb -> 1 <= decay_epoch args ->
  exists d s, epoch_loop E args tb db spf gold l0 = (d, inr s).
Proof.
  intros Hlc Hde. unfold epoch_loop. rewrite py_range_shape.
  apply (loop_total E args tb db spf gold); auto.
Qed.

(** C4.  An epoch that completes appends exactly one score, the dev score
    of its summary line, to the history it read for its two decisions, and
    leaves the earlier entries as they were.  For every epoch count: when
    the loop returns, the history holds one entry per epoch,
    the scores of the summary lines in order; after the first [k] epochs it
    holds the first [k] of these entries; and the loop does return when the
    loss arithmetic is defined and the decay start is at least 1. *)
Theorem history_one_score_per_epoch (l0 : list (Event T)) :
  (forall ms e s l d s',
     epoch_body E args tb db spf gold ms e s l = (d, inr s') ->
     exists pre tl sc post,
       d = (pre ++ EvPrint (MsgEpoch e tl sc) :: post)%list /\
       no_summary post /\
       existsb is_seq_save post = save_cond e sc (dev_score_history s) /\
       first_lr_change post =
         decay_lr args e sc (dev_score_history s) (current_lr s) /\
       dev_score_history s' = (dev_score_history s ++ [sc])%list) /\
  (forall d s,
     epoch_loop E args tb db spf gold l0 = (d, inr s) ->
     List.length (dev_score_history s) = Z.to_nat (num_epoch args) /\
     dev_score_history s = map rec_score (epoch_records d) /\
     forall k, 0 <= k <= num_epoch args ->
       exists dk sk,
         for_each (py_range 1 (k + 1)) body start l0 = (dk, inr sk) /\
         dev_score_history sk = firstn (Z.to_nat k) (dev_score_history s) /\
         List.length (dev_score_history sk) = Z.to_nat k) /\
  (loss_computable args tb -> 1 <= decay_epoch args ->
   exists d s, epoch_loop E args tb db spf gold l0 = (d, inr s)).
Proof.
  split; [|split].
  - intros ms e s l d s' Hb.
    apply body_cases in Hb
      as [(_ & x & Hx & _)
         |(pre & tl & sc & post & Hd & _ & Hp & Hs & Hl & Hres)];
      [discriminate|].
    destruct Hres as [(s1 & Hs1 & Hh & _)|[(Hx & _)|(Hx & _)]];
      try discriminate.
    injection Hs1 as <-. exists pre, tl, sc, post. auto.
  - intros d s Hrun. destruct (epoch_loop_history l0 d s Hrun) as (Hlen & Hh).
    split; [exact Hlen|]. split; [exact Hh|].
    intros k Hk. exact (history_prefix l0 d s k Hrun Hk).
  - apply epoch_loop_returns.
Qed.

(** C8.  With [decay_epoch >= 1] the loop never raises [IndexError]: line
    165 reads [dev_score_history[-1]] only on a history with an entry.
    With [decay_epoch <= 0], at least one epoch and the loss arithmetic
    defined, the first epoch reads it on the empty history: the loop ends
    in [IndexError] with the summary line of epoch 1 as its only one. *)
Theorem last_score_read_guarded (l0 : list (Event T)) :
  (1 <= decay_epoch args ->
   snd (epoch_loop E args tb db spf gold l0) <> inl IndexError) /\
  (decay_epoch args <= 0 -> 1 <= num_epoch args ->
   loss_computable args tb ->
   snd (epoch_loop E args tb db spf gold l0) = inl IndexError /\
   map rec_epoch (epoch_records (fst (epoch_loop E args tb db spf gold l0)))
   = [1]).
Proof.
  split.
  - intros Hde Hx. unfold epoch_loop in Hx.
    destruct (for_each _ _ _ l0) as [d r] eqn:Hrun. cbn [snd] in Hx. subst r.
    apply loop_raises in Hrun as [[Hl|Hl]|(_ & e & eps & Heps & Hcase)];
      try discriminate.
    destruct Hcase as [(Hv & _)|(_ & Hlt)]; [discriminate|].
    assert (He : nth_error (py_range 1 (num_epoch args + 1)) 0 = Some e)
      by (rewrite Heps; reflexivity).
    apply py_range_nth in He. simpl in He. lia.
  - intros Hde Hn Hlc. unfold epoch_loop.
    destruct (py_range_head (num_epoch args) Hn) as (eps & ->).
    cbn [for_each].
    destruct (epoch_measure_total E args tb db spf gold
                (loader_len tb * num_epoch args) 1 start l0 Hlc)
      as (d1 & gd & Hm).
    pose proof Hm as Hm'.
    apply epoch_measure_cases in Hm'
      as [(_ & x & Hx & _)|(pre & tl & gd' & -> & F & Hgd)]; [discriminate|].
    injection Hgd as <-.
    pose proof (body_after_measure _ _ _ _ _ _ _ _ _ _ _ _ Hm) as Hb.
    rewrite epoch_decide_eq in Hb. cbv zeta in Hb.
    cbn [dev_score_history is_nil negb Z.eqb andb Pos.eqb] in Hb.
    assert (Hlt : (decay_epoch args <? 1) = true) by (apply Z.ltb_lt; lia).
    rewrite Hlt in Hb. cbn [andb fst snd] in Hb.
    rewrite (bind_inl _ _ _ _ _ Hb). cbn [fst snd]. split; [reflexivity|].
    rewrite <- app_assoc. cbn [app].
    rewrite (records_one_epoch pre _ 1 tl (snd gd) F); [reflexivity|].
    unfold save_cond. cbn [Z.eqb Pos.eqb orb]. repeat constructor.
Qed.

End HistoryClaims.

(** ** The report at the end of training and the preset store *)
Section Report.
Context {T : Sorts} (E : Env T).
Variables (args : Args) (tb db : Loader T) (spf : string) (gold : option string).
Import PyFloat PyFloatFacts.

Lemma same_lang_refl (lg : option string) : same_lang lg lg = true.
Proof. destruct lg; [apply String.eqb_refl | reflexivity]. Qed.

(** The update of the store: only the record of the language can change;
    a stored record is replaced exactly when the new score is strictly
    greater than its score. *)
Lemma preset_update_spec (st : PresetStore) (lg : option string) (a : Args)
    (f : float) :
  (forall k, same_lang k lg = false -> preset_update st lg a f k = st k) /\
  (forall old, st lg = Some old ->
     preset_update st lg a f lg =
     Some (if PrimFloat.ltb (preset_f old) f then mkPreset a f else old)) /\
  (st lg = None -> preset_update st lg a f lg = Some (mkPreset a f)).
Proof.
  unfold preset_update. split; [|split].
  - intros k Hk. destruct (st lg) as [old|];
      [destruct (PrimFloat.ltb (preset_f old) f)|]; now rewrite ?Hk.
  - intros old Hold. rewrite Hold.
    destruct (PrimFloat.ltb (preset_f old) f); [|exact Hold].
    now rewrite same_lang_refl.
  - intros Hnone. rewrite Hnone. now rewrite same_lang_refl.
Qed.

Lemma py_range_empty (n : Z) : n < 1 -> py_range 1 (n + 1) = [].
Proof.
  intros Hn. unfold py_range. replace (Z.to_nat (n + 1 - 1)) with 0%nat by lia.
  reflexivity.
Qed.

Lemma report_best_eq (h : list float) (m : float) (i : nat)
    (l : list (Event T)) :
  1 <= num_epoch args -> py_max h = Some m -> np_argmax h = Some i ->
  report_best (T:=T) args h l =
  ([EvPrint (MsgTrainingEnded (num_epoch args));
    EvPrint (MsgBest (m * hundred) (Z.of_nat i + 1));
    EvParamUpdate args (m * hundred)%float], inr tt).
Proof.
  intros Hn Hm Hi. unfold report_best, bind, or_raise, print, emit, ret.
  rewrite (py_range_last _ Hn), Hm, Hi. reflexivity.
Qed.

Lemma report_best_returns (h : list float) (l d : list (Event T)) :
  report_best (T:=T) args h l = (d, inr tt) ->
  1 <= num_epoch args /\ exists m i, py_max h = Some m /\ np_argmax h = Some i.
Proof.
  intros H.
  destruct (Z_lt_le_dec (num_epoch args) 1) as [Hlt|Hge].
  - unfold report_best, bind, or_raise, raise in H.
    rewrite (py_range_empty _ Hlt) in H. discriminate H.
  - split; [exact Hge|]. destruct h as [|x xs].
    + unfold report_best, bind, or_raise, raise, print, emit, ret in H.
      rewrite (py_range_last _ Hge) in H. discriminate H.
    + eexists _, _; split; reflexivity.
Qed.

(** C5.  When seq2seq training returns, its last three events are the line
    that reports the number of epochs, the line that reports the best score
    and epoch, and the update of the preset store: the best score is [max]
    of the history times 100, the best epoch is [np.argmax] of the history
    plus 1, and the store is given the configuration and that best score.
    On a history without NaN the reported epoch is the first one whose
    score is the maximum: its score is [max] of the history, every earlier
    score is strictly smaller and no score is greater.  The store (as the
    spec describes it) replaces a stored record only if the new score is
    strictly better.  Training returns when the loss arithmetic is defined,
    the decay start and the epoch count are at least 1. *)
Theorem best_score_and_epoch_reported (l : list (Event T)) :
  (forall d,
     train_seq2seq E args tb db spf gold l = (d, inr tt) ->
     exists d1 s m i,
       let h := dev_score_history s in
       epoch_loop E args tb db spf gold
         (l ++ [EvTrainerNew KSeq args (Some (vocab tb))]) = (d1, inr s) /\
       py_max h = Some m /\ np_argmax h = Some i /\
       d = ([EvTrainerNew KSeq args (Some (vocab tb))] ++ d1 ++
            [EvPrint (MsgTrainingEnded (num_epoch args));
             EvPrint (MsgBest (m * hundred) (Z.of_nat i + 1));
             EvParamUpdate args (m * hundred)%float])%list /\
       (all_num h ->
        nth_error h i = Some m /\
        (forall j x, (j < i)%nat -> nth_error h j = Some x ->
                     PrimFloat.ltb x m = true) /\
        (forall x, In x h -> PrimFloat.leb x m = true)) /\
       (forall (st : PresetStore) (lg : option string),
          let f := (m * hundred)%float in
          (forall k, same_lang k lg = false ->
                     preset_update st lg args f k = st k) /\
          (forall old, st lg = Some old ->
             preset_update st lg args f lg =
             Some (if PrimFloat.ltb (preset_f old) f
                   then mkPreset args f else old)) /\
          (st lg = None ->
           preset_update st lg args f lg = Some (mkPreset args f)))) /\
  (loss_computable args tb -> 1 <= decay_epoch args -> 1 <= num_epoch args ->
   exists d, train_seq2seq E args tb db spf gold l = (d, inr tt)).
Proof.
  split.
  - intros d Hrun. unfold train_seq2seq in Hrun.
    apply bind_inv in Hrun as [(x & Hx & _)|(d0 & [] & d' & H0 & Hrun & ->)];
      [discriminate|].
    injection H0 as <-.
    apply bind_inv in Hrun as [(x & _ & Hx)|(d1 & s & d2 & H1 & H2 & ->)];
      [discriminate|].
    destruct (report_best_returns _ _ _ H2) as (Hn & m & i & Hm & Hi).
    rewrite (report_best_eq _ m i _ Hn Hm Hi) in H2. injection H2 as <-.
    exists d1, s, m, i. cbv zeta.
    split; [exact H1|]. split; [exact Hm|]. split; [exact Hi|].
    split; [reflexivity|]. split.
    + intros Hnum. now apply max_argmax_spec.
    + intros st lg. apply preset_update_spec.
  - intros Hlc Hde Hn.
    destruct (epoch_loop_returns E args tb db spf gold
                (l ++ [EvTrainerNew KSeq args (Some (vocab tb))])%list Hlc Hde)
      as (d1 & s & H1).
    destruct (epoch_loop_history E args tb db spf gold _ _ _ H1) as (Hlen & _).
    destruct (dev_score_history s) as [|x xs] eqn:Hh;
      [simpl in Hlen; lia|].
    eexists. unfold train_seq2seq.
    eapply bind_inr; [reflexivity|].
    eapply bind_inr; [exact H1|].
    rewrite Hh. now apply report_best_eq.
Qed.

End Report.

(** ** [train]: the setup, the no-data check and the dictionary path *)
Section Train.
Context {T : Sorts} (E : Env T).

Lemma model_file_of_vocab (v : Z) (args : Args) :
  model_file_of (set_vocab_size v args) = model_file_of args.
Proof. destruct args; reflexivity. Qed.

(** What the setup emits and returns, by the output file and the
    [best_param] flag. *)
Lemma train_setup_eq (args : Args) (l : list (Event T)) :
  let e1 := EvPrint (MsgLoading (data_dir args) (batch_size args)) in
  let e2 := EvDataLoader (fmt_slash (data_dir args) (train_file args))
              (batch_size args) args false in
  let trn := data_loader_ans E ((l ++ [e1]) ++ [e2])%list in
  let a1 := set_vocab_size (vocab_len E (vocab trn)) args in
  let e3 := EvDataLoader (fmt_slash (data_dir args) (eval_file args))
              (batch_size args) a1 true in
  let dev := data_loader_ans E (((l ++ [e1]) ++ [e2]) ++ [e3])%list in
  let a2 := set_save_name (model_file_of args) a1 in
  let e4 := EvParamManager "params/mwt" (lang args) in
  let l4 := ((((l ++ [e1]) ++ [e2]) ++ [e3]) ++ [e4])%list in
  train_setup E args l =
  match output_file args with
  | None => ([e1; e2; e3], inl TypeError)
  | Some f =>
      if best_param args
      then let a3 := load_to_args_ans E (l4 ++ [EvLoadToArgs a2])%list in
           ([e1; e2; e3; e4; EvLoadToArgs a2; EvSaveConfig a3 (config_path a3)],
            inr (mkSetup a3 trn dev ((data_dir args ++ "/") ++ f)%string
                   (gold_file args)))
      else ([e1; e2; e3; e4; EvSaveConfig a2 (config_path a2)],
            inr (mkSetup a2 trn dev ((data_dir args ++ "/") ++ f)%string
                   (gold_file args)))
  end.
Proof.
  cbv zeta. unfold train_setup, new_data_loader, str_add, bind, call, emit,
    print, ret, raise.
  destruct args as [dd tf ef [f|] gf md lg [|] dc hd ed nl edr dr mdl bs at_
    e2d st op lr0 lrd de ne bsz mg ls sd sn sdd cu cp vs];
    cbn; rewrite ?app_nil_r; reflexivity.
Qed.

Lemma train_setup_total (args : Args) (l : list (Event T)) (f : string) :
  output_file args = Some f ->
  exists d su, train_setup E args l = (d, inr su).
Proof.
  intros Hf. rewrite train_setup_eq. cbv zeta. rewrite Hf.
  destruct (best_param args); eexists _, _; reflexivity.
Qed.



End Train.

Section TrainClaims.
Context {T : Sorts} (E : Env T).

Lemma no_trainer_no_save (d : list (Event T)) :
  calls_no_trainer d -> existsb is_save d = false.
Proof.
  induction 1 as [|e d He _ IH]; [reflexivity|].
  simpl. rewrite IH, orb_false_r.
  destruct e; try reflexivity; discriminate He.
Qed.



(** The dictionary path, run: a straight line of nine events. *)
Lemma train_dict_eq (a : Args) (tb db : Loader T) (spf : string)
    (gold : option string) (l : list (Event T)) :
  let first :=
    [EvTrainerNew KDict a None; EvPrint MsgTrainingDict;
     EvTrain (get_mwt_expansions E (conll tb));
     EvPrint MsgEvaluatingDev;
     EvPredictCands (get_mwt_expansion_cands E (conll db))] in
  let preds := predict_ans E (l ++ first)%list in
  let scoring := [EvWriteConll (conll db) preds spf; EvScore spf gold] in
  let dev_f := snd (score_ans E (l ++ first ++ scoring)%list) in
  train_dict E a tb db spf gold l =
    ((first ++ scoring ++
      [EvPrint (MsgDevF1 (dev_f * hundred)); EvSave KDict (save_name a)])%list,
     inr tt).
Proof.
  cbv [train_dict write_and_score bind print emit call ret].
  cbn [app fst snd]. rewrite <- ?app_assoc. cbn [app]. reflexivity.
Qed.

(** C6.  With data in both loaders and the dictionary strategy selected,
    [train] runs, after the setup, exactly: the construction of a
    [DictTrainer], one [train] on the training pairs, one [predict] on the
    dev candidates, the write of the predictions, one scoring, and one
    [save] to the model file, in this order and whatever the score is;
    there is no update step and no epoch. *)
Theorem dictionary_training_single_pass (args : Args)
    (l d : list (Event T)) (su : Setup) :
  train_setup E args l = (d, inr su) ->
  loader_len (su_train su) <> 0 -> loader_len (su_dev su) <> 0 ->
  dict_only (su_args su) = true ->
  let a := su_args su in
  let first :=
    [EvTrainerNew KDict a None; EvPrint MsgTrainingDict;
     EvTrain (get_mwt_expansions E (conll (su_train su)));
     EvPrint MsgEvaluatingDev;
     EvPredictCands (get_mwt_expansion_cands E (conll (su_dev su)))] in
  let preds := predict_ans E ((l ++ d) ++ first)%list in
  let scoring :=
    [EvWriteConll (conll (su_dev su)) preds (su_pred_file su);
     EvScore (su_pred_file su) (su_gold su)] in
  let dev_f := snd (score_ans E ((l ++ d) ++ first ++ scoring)%list) in
  train E args l =
    ((d ++ first ++ scoring ++
      [EvPrint (MsgDevF1 (dev_f * hundred)); EvSave KDict (save_name a)])%list,
     inr tt) /\
  filter is_trainer_call (fst (train E args l)) =
    [EvTrainerNew KDict a None;
     EvTrain (get_mwt_expansions E (conll (su_train su)));
     EvPredictCands (get_mwt_expansion_cands E (conll (su_dev su)));
     EvSave KDict (save_name a)] /\
  epoch_records (fst (train E args l)) = [].
Proof.
  intros Hsu Ht Hd Hdict. cbv zeta.
  assert (Hrun : train E args l =
    ((d ++ fst (train_dict E (su_args su) (su_train su) (su_dev su)
                 (su_pred_file su) (su_gold su) (l ++ d)))%list, inr tt)).
  { unfold train. eapply bind_inr; [exact Hsu|].
    apply Z.eqb_neq in Ht, Hd. rewrite Ht, Hd, Hdict. cbn [orb].
    rewrite train_dict_eq. reflexivity. }
  rewrite train_dict_eq in Hrun. cbv zeta in Hrun. cbn [fst] in Hrun.
  split; [exact Hrun|]. rewrite Hrun. cbn [fst].
  assert (Hq : epoch_records d = [] /\ filter is_trainer_call d = []).
  { rewrite train_setup_eq in Hsu. cbv zeta in Hsu.
    destruct (output_file args) as [f|]; [|discriminate].
    destruct (best_param args); injection Hsu as <- _; split; reflexivity. }
  destruct Hq as [Hq1 Hq2]. split.
  - rewrite filter_app, Hq2. reflexivity.
  - rewrite records_app by (split; reflexivity). now rewrite Hq1.
Qed.

End TrainClaims.

(** ** [evaluate] and [main] *)
Section EvaluateMain.
Context {T : Sorts} (E : Env T).

(** The loop over the batches to predict: one [predict] per batch, in
    order. *)
Lemma predict_loop_eq (xs : list (Batch T)) : forall ps l,
  for_each xs (predict_step E) ps l =
  (map (@EvPredict T) xs, inr (predict_all E xs ps l)).
Proof.
  induction xs as [|x xs IH]; intros ps l; [reflexivity|].
  cbn [for_each map predict_all].
  change (EvPredict x :: map (@EvPredict T) xs)
    with ([EvPredict x] ++ map (@EvPredict T) xs)%list.
  eapply bind_inr; [reflexivity | apply IH].
Qed.


Lemma emit_bind_fst {B} (e : Event T) (k : unit -> M T B) l :
  fst (bind (emit e) k l) = e :: fst (k tt (l ++ [e])%list).
Proof.
  unfold bind, emit. destruct (k tt (l ++ [e])%list) as [d2 r2]. reflexivity.
Qed.

(** C10.  [main] first seeds torch and numpy with the seed argument and
    Python's [random] with 1234: these are the first three events of every
    run, so the seed [random] holds is 1234 whatever the arguments are,
    and two runs, however their arguments differ, start with the same
    [random] seed, while torch and numpy hold the seed argument. *)
Theorem random_seed_is_constant (args : Args) :
  let d := fst (run (main E args)) in
  firstn 3 d = [EvTorchSeed (seed args); EvNumpySeed (seed args);
                EvRandomSeed 1234] /\
  torch_seed_of d = Some (seed args) /\
  numpy_seed_of d = Some (seed args) /\
  random_seed_of d = Some 1234 /\
  forall args', random_seed_of (fst (run (main E args'))) = random_seed_of d.
Proof.
  assert (H : forall a, exists rest,
             fst (run (main E a)) =
             EvTorchSeed (seed a) :: EvNumpySeed (seed a) ::
             EvRandomSeed 1234 :: rest).
  { intros a. unfold run, main.
    rewrite !emit_bind_fst. eexists; reflexivity. }
  cbv zeta. destruct (H args) as (rest & ->).
  repeat split; try reflexivity.
  intros args'. destruct (H args') as (rest' & ->). reflexivity.
Qed.

End EvaluateMain.

(** ** The theorems at work on the sample environment *)
Section Witnesses.
Import Sample.
Local Open Scope string_scope.

Lemma sample_loss_computable (a : Args) :
  log_step a = 20 -> batch_size a = 50 ->
  loss_computable a train_loader.
Proof.
  intros Hl Hb. split; [rewrite Hl; discriminate|].
  exists 14%float, 50%float. rewrite Hb. repeat split.
Defined.

Lemma checkpoint_iff_strict_improvement_witness :
  let rs := epoch_records
              (fst (epoch_loop env_tie args0 train_loader dev_loader
                      "pred.conllu" (Some "gold.conllu") [])) in
  let r := mkRec 3 0.5 false None in
  nth_error rs 2 = Some r /\
  (forall m, rec_epoch r <> 1 ->
     py_max (map rec_score (firstn 2 rs)) = Some m ->
     PrimFloat.eqb (rec_score r) m = true -> rec_saved r = false).
Proof.
  cbv zeta. split; [vm_compute; reflexivity|].
  apply (checkpoint_iff_strict_improvement env_tie args0 train_loader
           dev_loader "pred.conllu" (Some "gold.conllu") [] 2).
  vm_compute; reflexivity.
Defined.

Lemma lr_decays_iff_not_better_than_previous_witness :
  let rs := epoch_records
              (fst (epoch_loop env_dip args0 train_loader dev_loader
                      "pred.conllu" (Some "gold.conllu") [])) in
  let r := mkRec 3 0.375 false None in
  nth_error rs 2 = Some r /\
  py_last (map rec_score (firstn 2 rs)) =
    option_map rec_score (nth_error rs 1).
Proof.
  cbv zeta. split; [vm_compute; reflexivity|].
  apply (lr_decays_iff_not_better_than_previous env_dip args0 train_loader
           dev_loader "pred.conllu" (Some "gold.conllu") [] 2
           (mkRec 3 0.375 false None)).
  vm_compute; reflexivity.
Defined.


Lemma history_one_score_per_epoch_witness :
  loss_computable args0 train_loader /\ 1 <= decay_epoch args0 /\
  exists d s,
    epoch_loop env_dip args0 train_loader dev_loader
      "pred.conllu" (Some "gold.conllu") [] = (d, inr s).
Proof.
  split; [apply sample_loss_computable; reflexivity|].
  split; [vm_compute; discriminate|].
  apply (history_one_score_per_epoch env_dip args0 train_loader dev_loader
           "pred.conllu" (Some "gold.conllu") []).
  - apply sample_loss_computable; reflexivity.
  - vm_compute; discriminate.
Defined.

Lemma best_score_and_epoch_reported_witness :
  loss_computable args0 train_loader /\
  exists d,
    train_seq2seq env_dip args0 train_loader dev_loader
      "pred.conllu" (Some "gold.conllu") [] = (d, inr tt).
Proof.
  split; [apply sample_loss_computable; reflexivity|].
  apply (best_score_and_epoch_reported env_dip args0 train_loader dev_loader
           "pred.conllu" (Some "gold.conllu") []).
  - apply sample_loss_computable; reflexivity.
  - vm_compute; discriminate.
  - vm_compute; discriminate.
Defined.

Lemma dictionary_training_single_pass_witness :
  let d := setup_log env_dip args_dict in
  let su := setup_result env_dip args_dict in
  train_setup env_dip args_dict [] = (d, inr su) /\
  dict_only (su_args su) = true /\
  filter is_trainer_call (fst (train env_dip args_dict [])) =
    [EvTrainerNew KDict (su_args su) None;
     EvTrain (get_mwt_expansions env_dip (conll (su_train su)));
     EvPredictCands (get_mwt_expansion_cands env_dip (conll (su_dev su)));
     EvSave KDict (save_name (su_args su))].
Proof.
  cbv zeta. split; [vm_compute; reflexivity|].
  split; [vm_compute; reflexivity|].
  apply (dictionary_training_single_pass env_dip args_dict []
           (setup_log env_dip args_dict) (setup_result env_dip args_dict)).
  - vm_compute; reflexivity.
  - vm_compute; discriminate.
  - vm_compute; discriminate.
  - vm_compute; reflexivity.
Defined.


Lemma last_score_read_guarded_witness :
  decay_epoch (with_schedule 0 3 args0) <= 0 /\
  snd (epoch_loop env_dip (with_schedule 0 3 args0) train_loader dev_loader
         "pred.conllu" (Some "gold.conllu") []) = inl IndexError.
Proof.
  split; [vm_compute; discriminate|].
  apply (last_score_read_guarded env_dip (with_schedule 0 3 args0)
           train_loader dev_loader "pred.conllu" (Some "gold.conllu") []).
  - vm_compute; discriminate.
  - vm_compute; discriminate.
  - apply sample_loss_computable; reflexivity.
Defined.


End Witnesses.

(** ** What the epoch loop emits and how it can end *)
Section LoopEvents.
Context {T : Sorts} (E : Env T).
Variables (args : Args) (tb db : Loader T) (spf : string) (gold : option string).
Variable P : Event T -> Prop.
Hypothesis P_update : forall b, P (EvUpdate b).
Hypothesis P_predict : forall b, P (EvPredict b).
Hypothesis P_print : forall m, P (EvPrint m).
Hypothesis P_write : forall d ps f, P (EvWriteConll d ps f).
Hypothesis P_score : forall f g, P (EvScore f g).
Hypothesis P_save : P (EvSave KSeq (save_name args)).
Hypothesis P_lr : forall x, P (EvChangeLr x).

Lemma epoch_measure_emits ms e s :
  obeys (T:=T) P any_exn (epoch_measure E args tb db spf gold ms e s).
Proof.
  unfold epoch_measure.
  apply obeys_bind.
  { apply obeys_for_each. intros b st. unfold update_step, py_mod, print.
    apply obeys_bind; [apply obeys_call; apply P_update|]. intros loss.
    apply obeys_bind.
    - destruct (log_step args =? 0);
        [apply obeys_raise; exact I | apply obeys_ret].
    - intros r. apply obeys_bind; [|intros; apply obeys_ret].
      destruct (r =? 0); [apply obeys_emit; apply P_print | apply obeys_ret]. }
  intros gl. apply obeys_bind; [apply obeys_emit; apply P_print|]. intros _.
  apply obeys_bind.
  { apply obeys_for_each. intros b ps. unfold predict_step.
    apply obeys_bind; [apply obeys_call; apply P_predict|].
    intros; apply obeys_ret. }
  intros dp. apply obeys_bind.
  { unfold write_and_score.
    apply obeys_bind; [apply obeys_emit; apply P_write|]. intros _.
    apply obeys_bind; [apply obeys_call; apply P_score|].
    intros; apply obeys_ret. }
  intros sc. apply obeys_bind.
  { unfold avg_loss.
    apply obeys_bind; [apply obeys_or_raise; exact I|]. intros x.
    apply obeys_bind.
    - destruct (PrimFloat.eqb x 0); [apply obeys_raise; exact I | apply obeys_ret].
    - intros _. apply obeys_bind; [apply obeys_or_raise; exact I|].
      intros; apply obeys_ret. }
  intros tl. apply obeys_bind; [apply obeys_emit; apply P_print|].
  intros; apply obeys_ret.
Qed.

Lemma epoch_decide_emits e s gd :
  obeys (T:=T) P any_exn (epoch_decide (T:=T) args e s gd).
Proof.
  unfold epoch_decide, save_best, lr_schedule, print.
  apply obeys_bind.
  { apply obeys_bind.
    - destruct (e =? 1); [apply obeys_ret|].
      apply obeys_bind; [apply obeys_or_raise; exact I|].
      intros; apply obeys_ret.
    - intros [|]; [|apply obeys_ret].
      apply obeys_bind; [apply obeys_emit; apply P_save|].
      intros; apply obeys_emit; apply P_print. }
  intros _. apply obeys_bind.
  { apply obeys_bind.
    - destruct (decay_epoch args <? e); [|apply obeys_ret].
      apply obeys_bind; [apply obeys_or_raise; exact I|].
      intros; apply obeys_ret.
    - intros [|]; [|apply obeys_ret].
      apply obeys_bind; [apply obeys_emit; apply P_lr|].
      intros; apply obeys_ret. }
  intros lr'. apply obeys_bind; [apply obeys_emit; apply P_print|].
  intros; apply obeys_ret.
Qed.

Lemma epoch_loop_emits l :
  Forall P (fst (epoch_loop E args tb db spf gold l)).
Proof.
  unfold epoch_loop.
  destruct (for_each _ _ _ l) as [d r] eqn:Hrun. cbn [fst].
  refine (proj1 (obeys_for_each P any_exn _ _ _ _ _ _ _ Hrun)).
  intros e s. unfold epoch_body.
  apply obeys_bind; [apply epoch_measure_emits|].
  intros gd. apply epoch_decide_emits.
Qed.

End LoopEvents.

(** ** Edge behaviour of training *)
Section TrainingEdges.
Context {T : Sorts} (E : Env T).
Variables (args : Args) (tb db : Loader T) (spf : string) (gold : option string).

(** X1.  Every event of the epoch loop is an update step, a prediction on a
    batch, a write of predictions, a scoring, a line of output, a change of
    the learning rate, or a save of the seq2seq trainer to
    [args['save_name']]: the loop saves to that one file only, builds or
    loads no trainer, writes no configuration and does not touch the preset
    store. *)
Theorem loop_saves_to_one_file (l : list (Event T)) :
  Forall (loop_event args) (fst (epoch_loop E args tb db spf gold l)).
Proof.
  apply epoch_loop_emits; intros; try exact I. split; reflexivity.
Qed.

(** X2.  With an epoch count below 1 the loop body never runs, so [epoch]
    is unbound at line 172: seq2seq training builds the trainer and ends in
    [NameError], without an update, a save or a report. *)
Theorem no_epoch_raises_name_error (l : list (Event T)) :
  num_epoch args < 1 ->
  train_seq2seq E args tb db spf gold l =
    ([EvTrainerNew KSeq args (Some (vocab tb))], inl NameError).
Proof.
  intros Hn. unfold train_seq2seq, epoch_loop, report_best.
  rewrite (py_range_empty _ Hn). reflexivity.
Qed.

(** X3.  With [log_step = 0], at least one epoch and a first training
    batch [b], line 142 divides by zero in the first step: the loop ends in
    [ZeroDivisionError] after the single update on [b]. *)
Theorem zero_log_step_stops_first_update (l : list (Event T))
    (b : Batch T) (bs : list (Batch T)) :
  log_step args = 0 -> 1 <= num_epoch args -> batches tb = b :: bs ->
  epoch_loop E args tb db spf gold l = ([EvUpdate b], inl ZeroDivisionError).
Proof.
  intros Hls Hn Hb. unfold epoch_loop.
  destruct (py_range_head _ Hn) as (eps & ->). cbn [for_each].
  apply bind_inl. unfold epoch_body. apply bind_inl.
  unfold epoch_measure. apply bind_inl. rewrite Hb. cbn [for_each].
  apply bind_inl. unfold update_step, py_mod. rewrite Hls. reflexivity.
Qed.

End TrainingEdges.

Section SetupEdges.
Context {T : Sorts} (E : Env T).


(** X5.  Without an output file and with eval batches, line 196 of
    [evaluate] raises [TypeError] after the configuration and the data are
    loaded: no trainer is built, no checkpoint is loaded and nothing is
    predicted or scored. *)
Theorem evaluate_without_output_file (args : Args) (l : list (Event T)) :
  let e1 := EvLoadConfig (config_path args) in
  let loaded := load_config_ans E (l ++ [e1])%list in
  let e2 := EvPrint (MsgLoading (data_dir args) (batch_size args)) in
  let e3 := EvDataLoader (fmt_slash (data_dir args) (eval_file args))
              (batch_size args) loaded true in
  let batch := data_loader_ans E (l ++ [e1; e2; e3])%list in
  output_file args = None -> loader_len batch <> 0 ->
  evaluate E args l = ([e1; e2; e3], inl TypeError).
Proof.
  cbv zeta. intros Hf Hlen. apply Z.eqb_neq in Hlen.
  cbv [evaluate new_data_loader bind print emit call ret raise str_add].
  rewrite <- ?app_assoc. cbn [app]. rewrite Hlen, Hf. reflexivity.
Qed.

Lemma obeys_bind_ret {A B} (P : Event T -> Prop) X (a : A)
    (k : A -> M T B) :
  obeys (T:=T) P X (k a) -> obeys (T:=T) P X (bind (ret a) k).
Proof.
  intros Hk l d r H. unfold bind, ret in H.
  destruct (k a (l ++ [])%list) as [d2 r2] eqn:Hka. injection H as <- <-.
  exact (Hk _ _ _ Hka).
Qed.

Lemma obeys_bind_raise {A B} (P : Event T -> Prop) (X : PyExn -> Prop) e
    (k : A -> M T B) :
  X e -> obeys (T:=T) P X (bind (raise e) k).
Proof.
  intros HX l d r H. unfold bind, raise in H. injection H as <- <-.
  split; [constructor | intros e' He; injection He as <-; exact HX].
Qed.

(** X6.  Every call [evaluate] makes, in every run and however it ends, is
    one of: the load of the configuration, the construction of the data
    loader, the construction of a trainer, the load of its checkpoint, a
    prediction, the write of the predictions to [data_dir/output_file], a
    scoring or a line of output.  So the prediction file is the only file
    it writes and loading is the only change it makes to a trainer: it
    never saves a checkpoint, never runs an update or a dictionary
    training, never changes a learning rate, never writes a configuration
    and never updates the preset store. *)
Theorem evaluate_writes_predictions_only (args : Args) (l : list (Event T)) :
  Forall (eval_event args) (fst (evaluate E args l)) /\
  Forall (fun e => is_mutation e = false) (fst (evaluate E args l)).
Proof.
  assert (Hall : Forall (eval_event args) (fst (evaluate E args l))).
  { destruct (evaluate E args l) as [d r] eqn:Hrun. cbn [fst].
    assert (Ho : obeys (T:=T) (eval_event args) any_exn (evaluate E args));
      [|exact (proj1 (Ho l d r Hrun))].
    clear Hrun. unfold evaluate, new_data_loader, print.
    apply obeys_bind; [apply obeys_call; exact I|]. intros loaded.
    apply obeys_bind; [apply obeys_emit; exact I|]. intros _.
    apply obeys_bind; [apply obeys_call; exact I|]. intros batch.
    destruct (loader_len batch =? 0).
    { repeat (apply obeys_bind; [apply obeys_emit; exact I|]; intros _).
      apply obeys_raise. exact I. }
    unfold str_add. destruct (output_file args) as [f|] eqn:Hf;
      [|apply obeys_bind_raise; exact I].
    apply obeys_bind_ret. apply obeys_bind.
    { destruct (dict_only loaded).
      - repeat (apply obeys_bind; [apply obeys_emit; exact I|]; intros _).
        apply obeys_call. exact I.
      - repeat (apply obeys_bind; [apply obeys_emit; exact I|]; intros _).
        apply obeys_for_each. intros b ps. unfold predict_step.
        apply obeys_bind; [apply obeys_call; exact I|].
        intros; apply obeys_ret. }
    intros preds. apply obeys_bind.
    { unfold write_and_score.
      apply obeys_bind;
        [apply obeys_emit; cbn [eval_event]; exists f; auto|]. intros _.
      apply obeys_bind; [apply obeys_call; exact I|].
      intros; apply obeys_ret. }
    intros sc. apply obeys_bind; [apply obeys_emit; exact I|].
    intros; apply obeys_emit; exact I. }
  split; [exact Hall|].
  eapply Forall_impl; [|exact Hall].
  intros e He. destruct e; try reflexivity; destruct He.
Qed.

(** X7.  [main] seeds torch, numpy and [random], seeds CUDA exactly when
    [cpu] is unset and [cuda] is set, prints the mode, and then runs
    [train] in mode [train] and [evaluate] otherwise, on the arguments
    with [cuda] cleared when [cpu] is set; it ends as that run ends. *)
Theorem main_dispatches (args : Args) (l : list (Event T)) :
  let args' := if cpu args then set_cuda false args else args in
  let sub := match mode args with
             | ModeTrain => train E args'
             | ModePredict => evaluate E args'
             end in
  main E args l =
  ((main_prelude args ++ fst (sub (l ++ main_prelude args)))%list,
   snd (sub (l ++ main_prelude args)%list)).
Proof.
  cbv zeta. unfold main_prelude.
  assert (Hm : forall v, mode (set_cuda v args) = mode args)
    by (destruct args; reflexivity).
  cbv [main bind emit print ret].
  destruct (cpu args), (cuda args); cbn [negb andb app];
    rewrite ?Hm, ?app_nil_r, <- ?app_assoc; cbn [app];
    destruct (mode args);
    match goal with
    | |- context [train ?E ?a ?l] => destruct (train E a l) as [d2 r2]
    | |- context [evaluate ?E ?a ?l] => destruct (evaluate E a l) as [d2 r2]
    end; reflexivity.
Qed.

End SetupEdges.

(** ** How seq2seq training can end, and what a returning loop has done *)
Section LoopWork.
Context {T : Sorts} (E : Env T).
Variables (args : Args) (tb db : Loader T) (spf : string) (gold : option string).
Import PyFloat PyFloatFacts.

Local Notation "'body'" :=
  (epoch_body E args tb db spf gold (loader_len tb * num_epoch args)).

(** The report, by the epoch count and the history. *)
Lemma report_best_cases (h : list float) (l : list (Event T)) :
  report_best (T:=T) args h l =
  if num_epoch args <? 1 then ([], inl NameError)
  else match py_max h, np_argmax h with
       | Some m, Some i =>
           ([EvPrint (MsgTrainingEnded (num_epoch args));
             EvPrint (MsgBest (m * hundred) (Z.of_nat i + 1));
             EvParamUpdate args (m * hundred)%float], inr tt)
       | _, _ => ([EvPrint (MsgTrainingEnded (num_epoch args))], inl ValueError)
       end.
Proof.
  destruct (num_epoch args <? 1) eqn:Hn.
  - apply Z.ltb_lt in Hn. unfold report_best, bind, or_raise, raise.
    rewrite (py_range_empty _ Hn). reflexivity.
  - apply Z.ltb_ge in Hn. destruct h as [|x xs].
    + unfold report_best, bind, or_raise, raise, print, emit.
      rewrite (py_range_last _ Hn). reflexivity.
    + now apply report_best_eq.
Qed.

(** X8.  Seq2seq training can end in an exception in four ways only: the
    loss arithmetic raises [ZeroDivisionError] or [OverflowError]; the
    first epoch raises [IndexError], which needs [decay_epoch <= 0]; or the
    epoch count is below 1 and line 172 raises [NameError].  In particular
    [max] and [np.argmax] are never applied to an empty history. *)
Theorem seq2seq_training_exceptions (l : list (Event T)) (x : PyExn) :
  snd (train_seq2seq E args tb db spf gold l) = inl x ->
  x = ZeroDivisionError \/ x = OverflowError \/
  (x = IndexError /\ decay_epoch args <= 0 /\ 1 <= num_epoch args) \/
  (x = NameError /\ num_epoch args < 1).
Proof.
  destruct (train_seq2seq E args tb db spf gold l) as [d r] eqn:Hrun.
  cbn [snd]. intros ->. unfold train_seq2seq in Hrun.
  apply bind_inv in Hrun as [(y & H0 & _)|(d0 & [] & d' & H0 & Hrun & ->)];
    [discriminate H0|].
  apply bind_inv in Hrun as [(y & H1 & Hy)|(d1 & s & d2 & H1 & H2 & ->)].
  - injection Hy as <-. unfold epoch_loop in H1.
    apply loop_raises in H1 as [[Hl|Hl]|(_ & e & eps & Heps & Hcase)]; auto.
    assert (He : e = 1).
    { assert (Hn : nth_error (py_range 1 (num_epoch args + 1)) 0 = Some e)
        by (rewrite Heps; reflexivity).
      apply py_range_nth in Hn. simpl in Hn. lia. }
    assert (Hn : 1 <= num_epoch args).
    { destruct (Z_lt_le_dec (num_epoch args) 1) as [Hlt|Hge]; [|exact Hge].
      rewrite (py_range_empty _ Hlt) in Heps. discriminate Heps. }
    destruct Hcase as [(_ & Hne)|(-> & Hlt)]; [contradiction|].
    right; right; left. repeat split; auto; lia.
  - rewrite report_best_cases in H2.
    destruct (num_epoch args <? 1) eqn:Hn.
    + apply Z.ltb_lt in Hn. injection H2 as _ <-. right; right; right. auto.
    + apply Z.ltb_ge in Hn.
      destruct (epoch_loop_history E args tb db spf gold _ _ _ H1) as (Hlen & _).
      destruct (dev_score_history s) as [|h0 hs];
        [simpl in Hlen; lia | discriminate H2].
Qed.

Lemma update_step_eq ms e c b (s : Z * float) l :
  update_step E args ms e c b s l =
  let loss := update_ans E (l ++ [EvUpdate b])%list in
  if log_step args =? 0 then ([EvUpdate b], inl ZeroDivisionError)
  else if (fst s + 1) mod log_step args =? 0
       then ([EvUpdate b;
              EvPrint (MsgStep (fst s + 1) ms e (num_epoch args) loss c)],
             inr (fst s + 1, (snd s + loss)%float))
       else ([EvUpdate b], inr (fst s + 1, (snd s + loss)%float)).
Proof.
  cbv [update_step py_mod bind call print emit ret raise].
  destruct (log_step args =? 0); [reflexivity|].
  destruct (_ mod _ =? 0); reflexivity.
Qed.

Lemma update_loop_work ms e c (xs : list (Batch T)) : forall s l d s',
  for_each xs (update_step E args ms e c) s l = (d, inr s') ->
  filter is_work d = map (@EvUpdate T) xs /\
  fst s' = fst s + Z.of_nat (List.length xs).
Proof.
  induction xs as [|x xs IH]; intros s l d s' H.
  - injection H as <- <-. split; [reflexivity | simpl; lia].
  - cbn [for_each] in H.
    apply bind_inv in H as [(y & _ & Hy)|(d1 & s1 & d2 & H1 & H2 & ->)];
      [discriminate|].
    rewrite update_step_eq in H1. cbv zeta in H1.
    destruct (log_step args =? 0); [discriminate|].
    destruct (IH _ _ _ _ H2) as (Hw & Hg).
    destruct (_ mod _ =? 0); injection H1 as <- <-;
      rewrite filter_app, Hw; cbn [fst] in Hg;
      (split; [reflexivity | rewrite Hg; cbn [List.length]; lia]).
Qed.

Lemma avg_loss_silent tl n b (l : list (Event T)) :
  fst (avg_loss (T:=T) tl n b l) = [].
Proof.
  cbv [avg_loss bind or_raise ret raise].
  destruct (float_of_int n) as [x|]; [|reflexivity].
  destruct (PrimFloat.eqb x 0); [reflexivity|].
  destruct (float_of_int b); reflexivity.
Qed.

Lemma filter_work_predicts (xs : list (Batch T)) :
  filter is_work (map (@EvPredict T) xs) = map (@EvPredict T) xs.
Proof. induction xs as [|x xs IH]; [reflexivity|]. simpl. now rewrite IH. Qed.

Lemma filter_work_updates (xs : list (Batch T)) :
  filter is_work (map (@EvUpdate T) xs) = map (@EvUpdate T) xs.
Proof. induction xs as [|x xs IH]; [reflexivity|]. simpl. now rewrite IH. Qed.

(** An epoch that completes has run every training batch and every dev
    batch once, in order, and scored once. *)
Lemma epoch_body_work ms e s l d s' :
  epoch_body E args tb db spf gold ms e s l = (d, inr s') ->
  filter is_work d = epoch_work tb db spf gold /\
  global_step s' = global_step s + loader_len tb.
Proof.
  unfold epoch_body. intros H.
  apply bind_inv in H as [(y & _ & Hy)|(dm & gd & dd & Hm & Hd & ->)];
    [discriminate|].
  rewrite epoch_decide_eq in Hd. cbv zeta in Hd.
  assert (Hdd : filter is_work dd = [] /\ global_step s' = fst gd).
  { destruct (negb (e =? 1) && is_nil (dev_score_history s));
      [discriminate|].
    destruct ((decay_epoch args <? e) && is_nil (dev_score_history s));
      [discriminate|].
    injection Hd as <- <-.
    destruct (save_cond e (snd gd) (dev_score_history s));
      destruct (decay_lr args e (snd gd) (dev_score_history s) (current_lr s));
      split; reflexivity. }
  destruct Hdd as (Hdd & Hg). rewrite filter_app, Hdd, app_nil_r, Hg.
  clear Hd Hdd Hg. unfold epoch_measure in Hm.
  apply bind_inv in Hm as [(y & _ & Hy)|(d1 & gl & r1 & H1 & Ha & ->)];
    [discriminate|].
  apply update_loop_work in H1 as (Hw1 & Hg1). cbn [fst] in Hg1.
  apply bind_inv in Ha as [(y & _ & Hy)|(d2 & [] & r2 & H2 & Hb & ->)];
    [discriminate|].
  injection H2 as <-.
  apply bind_inv in Hb as [(y & _ & Hy)|(d3 & dp & r3 & H3 & Hc & ->)];
    [discriminate|].
  rewrite predict_loop_eq in H3. injection H3 as <- <-.
  apply bind_inv in Hc as [(y & _ & Hy)|(d4 & sc & r4 & H4 & Hd & ->)];
    [discriminate|].
  cbv [write_and_score bind emit call ret] in H4. injection H4 as <- <-.
  apply bind_inv in Hd as [(y & _ & Hy)|(d5 & tl & r5 & H5 & He & ->)];
    [discriminate|].
  pose proof (avg_loss_silent (snd gl) (num_examples tb) (batch_size args)
                ((((l ++ d1) ++ [EvPrint MsgEvaluatingDev]) ++
                  map (@EvPredict T) (batches db)) ++
                 [EvWriteConll (conll db)
                    (predict_all E (batches db) []
                       ((l ++ d1) ++ [EvPrint MsgEvaluatingDev]))
                    spf] ++ [EvScore spf gold])%list) as Hsil.
  unfold print, emit, bind, ret in He. injection He as <- <-.
  cbn [fst]. split; [|unfold loader_len; lia].
  rewrite !filter_app, Hw1, filter_work_predicts.
  cbn [app] in H5.
  match type of H5 with ?a = _ => match type of Hsil with fst ?b = _ =>
    change b with a in Hsil end end.
  rewrite H5 in Hsil. cbn [fst] in Hsil. subst d5.
  unfold epoch_work. cbn [filter is_work is_update is_predict is_score orb app].
  reflexivity.
Qed.

Lemma loop_work eps : forall s l d s',
  for_each eps body s l = (d, inr s') ->
  filter is_work d =
    List.concat (repeat (epoch_work tb db spf gold) (List.length eps)) /\
  global_step s' = global_step s + loader_len tb * Z.of_nat (List.length eps).
Proof.
  induction eps as [|e eps IH]; intros s l d s' H.
  - injection H as <- <-. split; [reflexivity | simpl; lia].
  - cbn [for_each] in H.
    apply bind_inv in H as [(y & _ & Hy)|(d1 & s1 & d2 & H1 & H2 & ->)];
      [discriminate|].
    apply epoch_body_work in H1 as (Hw1 & Hg1).
    destruct (IH _ _ _ _ H2) as (Hw2 & Hg2).
    rewrite filter_app, Hw1, Hw2. split; [reflexivity|].
    rewrite Hg2, Hg1. cbn [List.length]. lia.
Qed.

(** X9.  When the epoch loop returns, it has run, [num_epoch] times over,
    one update on every training batch in order, one prediction on every
    dev batch in order and one scoring, and nothing else of that kind; and
    [global_step] has reached [len(train_batch)] times the number of
    epochs, the [max_steps] of the step lines. *)
Theorem each_epoch_works_once (l d : list (Event T)) (s : LoopSt) :
  epoch_loop E args tb db spf gold l = (d, inr s) ->
  filter is_work d =
    List.concat (repeat (epoch_work tb db spf gold) (Z.to_nat (num_epoch args))) /\
  global_step s = loader_len tb * Z.max 0 (num_epoch args).
Proof.
  unfold epoch_loop. intros H. apply loop_work in H as (Hw & Hg).
  rewrite py_range_length in Hw, Hg. split; [exact Hw|].
  rewrite Hg. cbn [global_step]. lia.
Qed.

End LoopWork.

(** ** The schedule, the checkpoint and the preset store over a whole run *)
Section WholeRun.
Context {T : Sorts} (E : Env T).
Variables (args : Args) (tb db : Loader T) (spf : string) (gold : option string).
Import PyFloat PyFloatFacts.

(** A log whose records show no rate change holds no [change_lr]. *)
Lemma no_lr_change_of_records (d : list (Event T)) :
  first_lr_change (until_summary d) = None ->
  Forall (fun r => rec_lr r = None) (epoch_records d) ->
  Forall (fun e => lr_change e = None) d.
Proof.
  induction d as [|e d IH]; intros Hh Hr; [constructor|].
  destruct (is_summary e) eqn:He.
  - assert (Hl : lr_change e = None)
      by (destruct e; try discriminate He; reflexivity).
    constructor; [exact Hl|]. rewrite epoch_records_cons in Hr.
    destruct e as [| | | |[]| | | | | | | | | | | | | | | |];
      try discriminate He.
    cbn [app] in Hr. inversion Hr as [|r0 rs H0 Hrs]; subst.
    apply IH; [exact H0 | exact Hrs].
  - cbn [until_summary] in Hh. rewrite He in Hh. cbn [first_lr_change] in Hh.
    destruct (lr_change e) eqn:Hl; [discriminate Hh|].
    constructor; [exact Hl|].
    rewrite (is_summary_records e d He) in Hr. now apply IH.
Qed.

Lemma lr_in_force_unchanged (c : float) (rs : list EpochRec) :
  Forall (fun r => rec_lr r = None) rs -> lr_in_force c rs = c.
Proof.
  intros H. revert c. induction H as [|r rs Hr _ IH]; intros c; [reflexivity|].
  cbn [lr_in_force]. rewrite Hr. apply IH.
Qed.

(** X10.  With [num_epoch <= decay_epoch] (as with the defaults, 30 and
    30) no epoch number exceeds the decay start: [Trainer.change_lr] is
    never called, and a loop that returns ends with the learning rate it
    started with. *)
Theorem no_decay_up_to_decay_epoch (l : list (Event T)) :
  num_epoch args <= decay_epoch args ->
  Forall (fun e => lr_change e = None)
    (fst (epoch_loop E args tb db spf gold l)) /\
  (forall d s, epoch_loop E args tb db spf gold l = (d, inr s) ->
               current_lr s = lr args).
Proof.
  intros Hde. unfold epoch_loop.
  destruct (for_each _ _ _ l) as [d r] eqn:Hrun. cbn [fst].
  destruct (loop_records E args tb db spf gold _ _ _ _ _ _ Hrun)
    as ((_ & Hq) & Hf & Hlen & Hret).
  assert (Hnone : Forall (fun r => rec_lr r = None) (epoch_records d)).
  { apply Forall_forall. intros r0 Hin.
    apply In_nth_error in Hin as (i & Hi).
    destruct (records_follow_nth args _ _ _ _ _ _ Hf Hi)
      as (e & He & _ & _ & Hl).
    assert (Hi' : (i < List.length (py_range 1 (num_epoch args + 1)))%nat)
      by (apply nth_error_Some; congruence).
    rewrite py_range_length in Hi'.
    apply py_range_nth in He. rewrite Hl. unfold decay_lr.
    assert (Hlt : (decay_epoch args <? e) = false) by (apply Z.ltb_ge; lia).
    now rewrite Hlt. }
  split; [now apply no_lr_change_of_records|].
  intros d' s Heq. injection Heq as <- ->.
  destruct (Hret s eq_refl) as (_ & _ & Hc). rewrite Hc.
  now apply lr_in_force_unchanged.
Qed.

Lemma py_max_from_snoc (xs : list float) (x : float) : forall m,
  py_max_from m (xs ++ [x]) =
  if gtb x (py_max_from m xs) then x else py_max_from m xs.
Proof.
  induction xs as [|y xs IH]; intros m; [reflexivity|]. simpl. apply IH.
Qed.

Lemma py_max_snoc (h : list float) (x m : float) :
  py_max h = Some m ->
  py_max (h ++ [x]) = Some (if gtb x m then x else m).
Proof.
  destruct h as [|y ys]; [discriminate|]. intros Hm. injection Hm as <-.
  cbn [app py_max]. now rewrite py_max_from_snoc.
Qed.

Lemma py_max_in (h : list float) (m : float) : py_max h = Some m -> In m h.
Proof.
  destruct h as [|y ys]; [discriminate|]. intros Hm. injection Hm as <-.
  apply py_max_from_in.
Qed.

(** The scan of [np.argmax] follows the saves of the later epochs. *)
Lemma scan_saves (rs : list EpochRec) : forall k j h c mp best,
  py_max h = Some mp -> List.length h = j -> (1 <= j)%nat ->
  all_num (h ++ map rec_score rs) ->
  records_follow args (map (fun i => 1 + Z.of_nat i) (seq j k)) h c rs ->
  last_saved_from (Some best) j rs =
  Some (np_argmax_from mp best j (map rec_score rs)).
Proof.
  induction rs as [|r rs IH]; intros k j h c mp best Hm Hj Hj1 Hnum Hf;
    [reflexivity|].
  destruct k as [|k]; [destruct Hf|].
  cbn [seq map] in Hf. destruct Hf as (He & Hs & _ & Hrest).
  assert (Hmp : not_nan mp = true).
  { unfold all_num in Hnum. rewrite Forall_forall in Hnum.
    apply Hnum, in_or_app. left. now apply py_max_in. }
  assert (Hsc : not_nan (rec_score r) = true).
  { unfold all_num in Hnum. rewrite Forall_forall in Hnum.
    apply Hnum, in_or_app. right. now left. }
  assert (Hnan : PrimFloat.is_nan mp = false).
  { unfold not_nan in Hmp. now destruct (PrimFloat.is_nan mp). }
  assert (Hne : (1 + Z.of_nat j =? 1) = false) by (apply Z.eqb_neq; lia).
  unfold save_cond in Hs. rewrite Hne, Hm in Hs. cbn [orb] in Hs.
  cbn [last_saved_from map np_argmax_from]. rewrite Hnan, Hs.
  rewrite (gtb_not_leb _ _ Hsc Hmp).
  pose proof (py_max_snoc h (rec_score r) mp Hm) as Hm'.
  rewrite (gtb_not_leb _ _ Hsc Hmp) in Hm'.
  assert (Hnum' : all_num ((h ++ [rec_score r]) ++ map rec_score rs))
    by (rewrite <- app_assoc; exact Hnum).
  assert (Hj' : List.length (h ++ [rec_score r]) = S j)
    by (rewrite length_app; simpl; lia).
  destruct (PrimFloat.leb (rec_score r) mp); cbn [negb] in *;
    eapply IH; eauto; lia.
Qed.

(** X11.  When the epoch loop returns and no dev score is NaN, the last
    epoch that saved a checkpoint is the one [np.argmax] picks: the model
    file holds the parameters of the epoch reported as best. *)
Theorem checkpoint_is_reported_best (l d : list (Event T)) (s : LoopSt) :
  epoch_loop E args tb db spf gold l = (d, inr s) ->
  all_num (dev_score_history s) ->
  last_saved (epoch_records d) = np_argmax (dev_score_history s).
Proof.
  intros Hrun Hnum.
  destruct (epoch_loop_history E args tb db spf gold _ _ _ Hrun) as (_ & Hh).
  unfold epoch_loop in Hrun.
  destruct (loop_records E args tb db spf gold _ _ _ _ _ _ Hrun)
    as (_ & Hf & _ & _).
  cbn [dev_score_history current_lr] in Hf. rewrite py_range_shape in Hf.
  rewrite Hh in *. destruct (epoch_records d) as [|r0 rs]; [reflexivity|].
  destruct (Z.to_nat (num_epoch args)) as [|k]; [destruct Hf|].
  cbn [seq map] in Hf. destruct Hf as (_ & Hs & _ & Hrest).
  cbn [app] in Hrest. unfold last_saved. cbn [last_saved_from map np_argmax].
  rewrite Hs. unfold save_cond. cbn [Z.of_nat Z.add Z.eqb Pos.eqb orb].
  eapply (scan_saves rs k 1 [rec_score r0]); eauto.
Qed.

Lemma loop_event_no_param_update (d : list (Event T)) :
  Forall (loop_event args) d -> filter is_param_update d = [].
Proof.
  induction 1 as [|e d He _ IH]; [reflexivity|].
  cbn [filter]. rewrite IH. destruct e; try reflexivity; destruct He.
Qed.

Lemma loop_event_no_dict_trainer (d : list (Event T)) :
  Forall (loop_event args) d ->
  Forall (fun e => forall a v, e <> EvTrainerNew KDict a v) d.
Proof.
  apply Forall_impl. intros e He a v ->. exact He.
Qed.

(** Seq2seq training updates the preset store at most once, as its last
    act when it returns, and builds no dictionary trainer. *)
Lemma seq2seq_param_update (l : list (Event T)) :
  let run := train_seq2seq E args tb db spf gold l in
  Forall (fun e => forall a v, e <> EvTrainerNew KDict a v) (fst run) /\
  (filter is_param_update (fst run) = [] \/
   (snd run = inr tt /\
    exists d0 f,
      fst run = (d0 ++ [EvParamUpdate args f])%list /\
      filter is_param_update d0 = [] /\
      In (EvTrainerNew KSeq args (Some (vocab tb))) d0)).
Proof.
  cbv zeta. unfold train_seq2seq.
  pose proof (epoch_loop_emits E args tb db spf gold (loop_event args)
                (fun _ => I) (fun _ => I) (fun _ => I) (fun _ _ _ => I)
                (fun _ _ => I) (conj eq_refl eq_refl) (fun _ => I)
                (l ++ [EvTrainerNew KSeq args (Some (vocab tb))])%list) as Hev.
  pose proof (loop_event_no_dict_trainer _ Hev) as Hnd.
  apply loop_event_no_param_update in Hev.
  cbv [bind emit].
  destruct (epoch_loop E args tb db spf gold
              (l ++ [EvTrainerNew KSeq args (Some (vocab tb))])%list)
    as [d1 [x|s]]; cbn [fst snd] in *.
  - split.
    + constructor; [discriminate | exact Hnd].
    + left. cbn [app filter is_param_update]. exact Hev.
  - rewrite report_best_cases.
    destruct (num_epoch args <? 1).
    { cbn [fst snd]. rewrite app_nil_r. split.
      - constructor; [discriminate | exact Hnd].
      - left. cbn [app filter is_param_update]. exact Hev. }
    destruct (py_max (dev_score_history s)) as [m|];
      [destruct (np_argmax (dev_score_history s)) as [i|]|]; cbn [fst snd].
    + split.
      * constructor; [discriminate|]. apply Forall_app. split; [exact Hnd|].
        repeat constructor; discriminate.
      * right. split; [reflexivity|].
        exists ([EvTrainerNew KSeq args (Some (vocab tb))] ++ d1 ++
                [EvPrint (MsgTrainingEnded (num_epoch args));
                 EvPrint (MsgBest (m * hundred) (Z.of_nat i + 1))])%list,
               (m * hundred)%float.
        split; [cbn [app]; rewrite <- app_assoc; reflexivity|].
        split; [|now left].
        cbn [app filter is_param_update]. rewrite filter_app, Hev. reflexivity.
    + split.
      * constructor; [discriminate|]. apply Forall_app. split; [exact Hnd|].
        repeat constructor; discriminate.
      * left. cbn [app filter is_param_update]. rewrite filter_app, Hev.
        reflexivity.
    + split.
      * constructor; [discriminate|]. apply Forall_app. split; [exact Hnd|].
        repeat constructor; discriminate.
      * left. cbn [app filter is_param_update]. rewrite filter_app, Hev.
        reflexivity.
Qed.

End WholeRun.

Section PresetUpdates.
Context {T : Sorts} (E : Env T).

(** X12.  [train] updates the preset store at most once, and only as the
    last act of a seq2seq training that ran to its end: either its log
    holds no update, or the run returned, the update is the last event of
    the log, the only one, and a seq2seq trainer was built before it with
    the configuration the store is given.  A run that builds a dictionary
    trainer holds no update, and neither does a run that ends in an
    exception, the exit of the no-data check among them. *)
Theorem preset_updated_only_after_training (args : Args)
    (l : list (Event T)) :
  let d := fst (train E args l) in
  (filter is_param_update d = [] \/
   (snd (train E args l) = inr tt /\
    exists d0 a f v,
      d = (d0 ++ [EvParamUpdate a f])%list /\
      filter is_param_update d0 = [] /\
      In (EvTrainerNew KSeq a v) d0)) /\
  ((exists a v, In (EvTrainerNew KDict a v) d) ->
   filter is_param_update d = []) /\
  (snd (train E args l) <> inr tt -> filter is_param_update d = []).
Proof.
  cbv zeta.
  assert (Hmain :
    filter is_param_update (fst (train E args l)) = [] \/
    (snd (train E args l) = inr tt /\
     (forall a v, ~ In (EvTrainerNew KDict a v) (fst (train E args l))) /\
     exists d0 a f v,
       fst (train E args l) = (d0 ++ [EvParamUpdate a f])%list /\
       filter is_param_update d0 = [] /\
       In (EvTrainerNew KSeq a v) d0)).
  { unfold train.
    destruct (train_setup E args l) as [d0 [x|su]] eqn:Hsu.
    - left. rewrite (bind_inl _ _ _ _ _ Hsu). cbn [fst].
      rewrite train_setup_eq in Hsu. cbv zeta in Hsu.
      destruct (output_file args); [destruct (best_param args)|];
        injection Hsu as <- _; reflexivity.
    - assert (H0 : filter is_param_update d0 = [] /\
                   (forall a v, ~ In (EvTrainerNew KDict a v) d0)).
      { rewrite train_setup_eq in Hsu. cbv zeta in Hsu.
        destruct (output_file args); [destruct (best_param args)|];
          try discriminate Hsu; injection Hsu as <- _;
          (split; [reflexivity|]); intros a v Hin;
          repeat (destruct Hin as [Hin|Hin]; [discriminate Hin|]);
          destruct Hin. }
      destruct H0 as (H0 & Hnd0).
      unfold bind. rewrite Hsu.
      destruct ((loader_len (su_train su) =? 0)
                || (loader_len (su_dev su) =? 0)).
      { left. cbv [bind print emit raise]. cbn [fst app].
        rewrite filter_app, H0. reflexivity. }
      destruct (dict_only (su_args su)).
      + left. rewrite train_dict_eq. cbv zeta. cbn [fst].
        rewrite filter_app, H0. reflexivity.
      + destruct (seq2seq_param_update E (su_args su) (su_train su)
                    (su_dev su) (su_pred_file su) (su_gold su) (l ++ d0)%list)
          as (Hnd & [Hn|(Hr & d1 & f & Hd & Hf & Hin)]);
          destruct (train_seq2seq E (su_args su) (su_train su) (su_dev su)
                      (su_pred_file su) (su_gold su) (l ++ d0)%list)
            as [d2 r2]; cbn [fst snd] in *.
        * left. now rewrite filter_app, H0, Hn.
        * right. split; [exact Hr|]. split.
          -- intros a v Hin'. apply in_app_or in Hin' as [Hin'|Hin'].
             ++ exact (Hnd0 a v Hin').
             ++ rewrite Forall_forall in Hnd. exact (Hnd _ Hin' a v eq_refl).
          -- exists (d0 ++ d1)%list, (su_args su), f,
                    (Some (vocab (su_train su))).
             rewrite Hd, app_assoc. split; [reflexivity|].
             split; [now rewrite filter_app, H0, Hf|].
             apply in_or_app. now right. }
  split; [|split].
  - destruct Hmain as [Hn|(Hr & _ & Hex)]; [now left|right; now split].
  - intros (a & v & Hin).
    destruct Hmain as [Hn|(_ & Hnd & _)]; [exact Hn|].
    destruct (Hnd a v Hin).
  - intros Hne. destruct Hmain as [Hn|(Hr & _)]; [exact Hn|].
    destruct (Hne Hr).
Qed.

End PresetUpdates.

(** ** The further theorems at work on the sample environment *)
Section MoreWitnesses.
Import Sample Defaults.
Local Open Scope string_scope.

Lemma no_epoch_raises_name_error_witness :
  num_epoch (with_schedule 1 0 args0) < 1 /\
  train_seq2seq env_dip (with_schedule 1 0 args0) train_loader dev_loader
    "pred.conllu" (Some "gold.conllu") [] =
  ([EvTrainerNew KSeq (with_schedule 1 0 args0) (Some (vocab train_loader))],
   inl NameError).
Proof.
  split; [reflexivity|].
  apply (no_epoch_raises_name_error env_dip (with_schedule 1 0 args0)
           train_loader dev_loader "pred.conllu" (Some "gold.conllu") []).
  reflexivity.
Defined.

Lemma zero_log_step_stops_first_update_witness :
  log_step (with_log_step 0 args0) = 0 /\
  epoch_loop env_dip (with_log_step 0 args0) train_loader dev_loader
    "pred.conllu" (Some "gold.conllu") [] =
  ([@EvUpdate sorts 1%nat], inl ZeroDivisionError).
Proof.
  split; [reflexivity|].
  apply (zero_log_step_stops_first_update env_dip (with_log_step 0 args0)
           train_loader dev_loader "pred.conllu" (Some "gold.conllu") []
           1%nat [2%nat]).
  - reflexivity.
  - vm_compute; discriminate.
  - reflexivity.
Defined.


Lemma evaluate_without_output_file_witness :
  output_file (default_args false) = None /\
  snd (evaluate env_stored (default_args false) []) = inl TypeError.
Proof.
  split; [reflexivity|].
  rewrite (evaluate_without_output_file env_stored (default_args false) []);
    [reflexivity | reflexivity | vm_compute; discriminate].
Defined.

Lemma seq2seq_training_exceptions_witness :
  snd (train_seq2seq env_dip (with_schedule 0 3 args0) train_loader dev_loader
         "pred.conllu" (Some "gold.conllu") []) = inl IndexError /\
  (IndexError = ZeroDivisionError \/ IndexError = OverflowError \/
   (IndexError = IndexError /\ decay_epoch (with_schedule 0 3 args0) <= 0 /\
    1 <= num_epoch (with_schedule 0 3 args0)) \/
   (IndexError = NameError /\ num_epoch (with_schedule 0 3 args0) < 1)).
Proof.
  split; [vm_compute; reflexivity|].
  apply (seq2seq_training_exceptions env_dip (with_schedule 0 3 args0)
           train_loader dev_loader "pred.conllu" (Some "gold.conllu") []).
  vm_compute; reflexivity.
Defined.

Lemma each_epoch_works_once_witness :
  epoch_loop env_dip args0 train_loader dev_loader
    "pred.conllu" (Some "gold.conllu") [] =
    (loop_log env_dip args0, inr (loop_state env_dip args0)) /\
  global_step (loop_state env_dip args0) = 6.
Proof.
  split; [vm_compute; reflexivity|].
  rewrite (proj2 (each_epoch_works_once env_dip args0 train_loader dev_loader
                    "pred.conllu" (Some "gold.conllu") []
                    (loop_log env_dip args0) (loop_state env_dip args0)
                    ltac:(vm_compute; reflexivity))).
  reflexivity.
Defined.

Lemma no_decay_up_to_decay_epoch_witness :
  num_epoch (default_args false) <= decay_epoch (default_args false) /\
  Forall (fun e => lr_change e = None)
    (fst (epoch_loop env_dip (default_args false) train_loader dev_loader
            "pred.conllu" (Some "gold.conllu") [])).
Proof.
  split; [vm_compute; discriminate|].
  apply (no_decay_up_to_decay_epoch env_dip (default_args false) train_loader
           dev_loader "pred.conllu" (Some "gold.conllu") []).
  vm_compute; discriminate.
Defined.

Lemma checkpoint_is_reported_best_witness :
  epoch_loop env_dip args0 train_loader dev_loader
    "pred.conllu" (Some "gold.conllu") [] =
    (loop_log env_dip args0, inr (loop_state env_dip args0)) /\
  last_saved (epoch_records (loop_log env_dip args0)) =
    np_argmax (dev_score_history (loop_state env_dip args0)).
Proof.
  split; [vm_compute; reflexivity|].
  apply (checkpoint_is_reported_best env_dip args0 train_loader dev_loader
           "pred.conllu" (Some "gold.conllu") []).
  - vm_compute; reflexivity.
  - vm_compute. repeat constructor.
Defined.

End MoreWitnesses.

(** ** Runs on which C3 and C9 hold only in their amended form *)
Section Refutations.
Import Sample Defaults.
Local Open Scope string_scope.



End Refutations.
